(** * IMU_BMI160_BMM150: discovery, sample decoding and rate limiting

    A shallow embedding of [IMU_BMI160_BMM150.cpp], the Arduino driver for a
    BMI160 (accelerometer + gyroscope) and a BMM150 (magnetometer) on one
    I2C bus, followed by the properties of the driver that are checked
    against it.

    Conventions of the embedding
    - C integers are [Z] with the wrap-around of their type written out
      ([u8], [u32], [to_int16], [to_int32]).
    - The Arduino [Wire] object, [delay] and [millis] are the platform: an
      abstract bus state with one function per primitive.  A transmission
      ([beginTransmission], the [write]s, [endTransmission]) is one
      primitive; the [millis]-bounded [requestFrom] loop of the two readers
      is one primitive as well, so no real time enters the model.
    - Every primitive call is recorded in a log carried next to the bus
      state (newest event first), which makes the bus traffic of a driver
      call observable.
    - [float] is abstract: the driver only stores float literals, compares
      and divides them, and truncates one quotient to [unsigned long].
    - The file-level and function-level [static] variables are the fields
      of [Driver]; every operation takes the driver state and returns the
      new one. *)

From Stdlib Require Import ZArith List Bool Lia QArith.
Import ListNotations.
Local Open Scope Z_scope.

(** ** Machine integers *)

Definition u8 (x : Z) : Z := x mod 256.
Definition u32 (x : Z) : Z := x mod 4294967296.
Definition to_int16 (x : Z) : Z := (x + 32768) mod 65536 - 32768.
Definition to_int32 (x : Z) : Z := (x + 2147483648) mod 4294967296 - 2147483648.

Definition is_u8 (x : Z) : Prop := 0 <= x < 256.
Definition is_int16 (x : Z) : Prop := -32768 <= x <= 32767.

(** [buf[i]] on a byte buffer. *)
Definition byte_at (buf : list Z) (i : nat) : Z := nth i buf 0.

(** ** Register map (the [#define]s of the source) *)

Definition BMI160_ADDR_68 : Z := 0x68.
Definition BMI160_ADDR_69 : Z := 0x69.

Definition BMI160_CHIP_ID : Z := 0x00.
Definition BMI160_CMD : Z := 0x7E.
Definition BMI160_ACC_CONF : Z := 0x40.
Definition BMI160_ACC_RANGE : Z := 0x41.
Definition BMI160_GYR_CONF : Z := 0x42.
Definition BMI160_GYR_RANGE : Z := 0x43.
Definition BMI160_MAG_IF_0 : Z := 0x4B.
Definition BMI160_MAG_IF_1 : Z := 0x4C.
Definition BMI160_MAG_IF_2 : Z := 0x4D.
Definition BMI160_MAG_IF_3 : Z := 0x4E.
Definition BMI160_MAG_IF_4 : Z := 0x4F.
Definition BMI160_MAG_CONF : Z := 0x44.
Definition BMI160_DATA_0 : Z := 0x04.
Definition BMI160_STATUS : Z := 0x1B.
Definition BMI160_BMM150_IF : Z := 0x7D.

Definition BMI160_CMD_SOFTRESET : Z := 0xB6.
Definition BMI160_CMD_ACC_NORMAL : Z := 0x11.
Definition BMI160_CMD_GYR_NORMAL : Z := 0x15.
Definition BMI160_CMD_MAG_NORMAL : Z := 0x19.

Definition BMM150_CHIP_ID : Z := 0x40.
Definition BMM150_POWER : Z := 0x4B.
Definition BMM150_OPMODE : Z := 0x4C.
Definition BMM150_DATA_X : Z := 0x42.
Definition BMM150_FORCED_MODE : Z := 0x02.

Definition MAX_ACC_FREQUENCY : Z := 1600.
Definition MAX_GYR_FREQUENCY : Z := 3200.
Definition MAX_MAG_FREQUENCY : Z := 100.

(** ** Data model *)

(** Modelled from the spec: the enumeration [MagMode] is declared in the
    header [IMU_BMI160_BMM150.h], which is not part of the sources.  The
    source uses the three enumerators [NONE], [PRIMARY] (direct) and
    [SECONDARY] (bridged through the BMI160); the spec calls them Absent,
    Direct and Bridged. *)
Inductive MagMode : Type := NONE | PRIMARY | SECONDARY.

Definition MagMode_eqb (a b : MagMode) : bool :=
  match a, b with
  | NONE, NONE | PRIMARY, PRIMARY | SECONDARY, SECONDARY => true
  | _, _ => false
  end.

(** Modelled from the spec: the struct [SensorConfig] is declared in the
    same missing header; its four fields are the ones the designated
    initialiser of [config] names. *)
Record SensorConfig : Type := mkConfig {
  acc_odr : Z;
  acc_range : Z;
  gyr_odr : Z;
  gyr_range : Z
}.

(** One raw sample: what the four output parameters [acc], [gyr], [mag]
    and [rhall] of the read operations point to. *)
Record Sample : Type := mkSample {
  s_acc : Z * Z * Z;
  s_gyr : Z * Z * Z;
  s_mag : Z * Z * Z;
  s_rhall : Z
}.

Definition zero3 : Z * Z * Z := (0, 0, 0).
Definition zero_sample : Sample := mkSample zero3 zero3 zero3 0.

(** The function-level statics of [IMU_readDataWithFrequency]. *)
Record RateState : Type := mkRate {
  last_time : Z;
  acc_sum : Z * Z * Z;
  gyr_sum : Z * Z * Z;
  mag_sum : Z * Z * Z;
  rhall_sum : Z;
  samples : Z
}.

Definition rate_init : RateState := mkRate 0 zero3 zero3 zero3 0 0.

(** The accumulator part of the statics is empty. *)
Definition accum_empty (r : RateState) : Prop :=
  acc_sum r = zero3 /\ gyr_sum r = zero3 /\ mag_sum r = zero3 /\
  rhall_sum r = 0 /\ samples r = 0.

(** The accumulator fields of two rate states agree. *)
Definition same_accumulator (r r' : RateState) : Prop :=
  acc_sum r' = acc_sum r /\ gyr_sum r' = gyr_sum r /\ mag_sum r' = mag_sum r /\
  rhall_sum r' = rhall_sum r /\ samples r' = samples r.

(** ** The platform: Wire, delay, millis and float *)

Inductive Event : Type :=
| EvTx (addr : Z) (bytes : list Z) (stop : bool)
| EvRx (addr : Z) (len : Z) (timeout : Z)
| EvDelay (ms : Z)
| EvMillis.

Record Platform : Type := mkPlatform {
  Bus : Type;
  (** [beginTransmission(addr)], [write] of each byte, [endTransmission(stop)];
      the result is the status [endTransmission] returns. *)
  wire_transmit : Z -> list Z -> bool -> Bus -> Z * Bus;
  (** The loop [while (millis() - start < timeout && ...) received =
      requestFrom(addr, len)]; the result is the receive buffer it leaves,
      whose length is [received]. *)
  wire_request : Z -> Z -> Z -> Bus -> list Z * Bus;
  wire_delay : Z -> Bus -> Bus;
  wire_millis : Bus -> Z * Bus;
  float : Type;
  f_lit : Q -> float;
  f_leb : float -> float -> bool;
  f_ltb : float -> float -> bool;
  f_div : float -> float -> float;
  (** The conversion [(unsigned long) x]. *)
  f_to_ulong : float -> Z;
  (** Whether the build defines [IMU_BMI160_BMM150_DEBUG]. *)
  debug_build : bool
}.

Section Driver.

Context (P : Platform).

Record World : Type := mkWorld {
  bus : Bus P;
  log : list Event
}.

(** *** State monad over the world *)

Definition M (A : Type) : Type := World -> A * World.

Definition ret {A : Type} (a : A) : M A := fun w => (a, w).

Definition bind {A B : Type} (m : M A) (k : A -> M B) : M B :=
  fun w => let (a, w') := m w in k a w'.

Notation "x <- m ;; k" := (bind m (fun x => k))
  (at level 61, m at next level, right associativity).
Notation "' p <- m ;; k" := (bind m (fun x => let p := x in k))
  (at level 61, p pattern, m at next level, right associativity).
Notation "m ;;; k" := (bind m (fun _ => k))
  (at level 61, right associativity).

Definition transmit (addr : Z) (bytes : list Z) (stop : bool) : M Z :=
  fun w => let (st, b) := wire_transmit P addr bytes stop (bus w) in
           (st, mkWorld b (EvTx addr bytes stop :: log w)).

Definition request (timeout addr len : Z) : M (list Z) :=
  fun w => let (rx, b) := wire_request P addr len timeout (bus w) in
           (rx, mkWorld b (EvRx addr len timeout :: log w)).

Definition delay (ms : Z) : M unit :=
  fun w => (tt, mkWorld (wire_delay P ms (bus w)) (EvDelay ms :: log w)).

(** [millis()] returns an [unsigned long], 32 bits wide on the boards the
    driver targets. *)
Definition millis : M Z :=
  fun w => let (t, b) := wire_millis P (bus w) in
           (u32 t, mkWorld b (EvMillis :: log w)).

(** *** Bus helpers *)

(** [chip_id] is the nullable out-parameter: [None] for [nullptr],
    [Some v] for a pointer whose target currently holds [v]; the target is
    returned next to the result. *)
Definition i2c_device_exists (addr : Z) (chip_id : option Z) (reg : Z)
  : M (bool * option Z) :=
  st <- transmit addr [reg] true ;;
  if negb (st =? 0) then ret (false, chip_id) else
  match chip_id with
  | Some _ =>
      st2 <- transmit addr [reg] false ;;
      if negb (st2 =? 0) then ret (false, chip_id) else
      rx <- request 5 addr 1 ;;
      if Z.of_nat (length rx) =? 1
      then ret (true, Some (u8 (byte_at rx 0)))
      else ret (false, chip_id)
  | None => ret (true, None)
  end.

Definition i2c_safe_write (addr reg val : Z) : M bool :=
  st <- transmit addr [reg; val] true ;;
  ret (st =? 0).

(** [buf] is the caller's buffer; it is returned unchanged on failure and
    with its first [len] bytes overwritten on success. *)
Definition i2c_safe_read (addr reg : Z) (buf : list Z) (len : Z)
  : M (bool * list Z) :=
  '(present, _) <- i2c_device_exists addr None 0x00 ;;
  if negb present then ret (false, buf) else
  st <- transmit addr [reg] false ;;
  if negb (st =? 0) then ret (false, buf) else
  rx <- request 10 addr len ;;
  if negb (Z.of_nat (length rx) =? len) then ret (false, buf) else
  ret (true, map u8 rx ++ skipn (Z.to_nat len) buf).

(** [if (!c) return false; k] *)
Definition or_fail (c : M bool) (k : M bool) : M bool :=
  ok <- c ;; if ok then k else ret false.

Notation "'require' c ;; k" := (or_fail c k)
  (at level 61, c at next level, right associativity).

(** *** Driver state *)

Record Driver : Type := mkDriver {
  bmi160_addr : Z;
  bmm150_addr : Z;
  mag_mode : MagMode;
  config : SensorConfig;
  initialized : bool;
  ACC_LSB : float P;
  GYR_LSB : float P;
  rate : RateState
}.

(** The initial values of the statics. *)
Definition driver_init : Driver :=
  mkDriver 0 0 NONE (mkConfig 0x28 0x05 0x28 0x00) false
           (f_lit P 8192) (f_lit P 16.384) rate_init.

Definition set_bmi160_addr (a : Z) (d : Driver) : Driver :=
  mkDriver a (bmm150_addr d) (mag_mode d) (config d) (initialized d)
           (ACC_LSB d) (GYR_LSB d) (rate d).

(** [bmm150_addr = a; mag_mode = m;] *)
Definition set_magnetometer (a : Z) (m : MagMode) (d : Driver) : Driver :=
  mkDriver (bmi160_addr d) a m (config d) (initialized d)
           (ACC_LSB d) (GYR_LSB d) (rate d).

Definition set_config (c : SensorConfig) (d : Driver) : Driver :=
  mkDriver (bmi160_addr d) (bmm150_addr d) (mag_mode d) c (initialized d)
           (ACC_LSB d) (GYR_LSB d) (rate d).

Definition set_initialized (b : bool) (d : Driver) : Driver :=
  mkDriver (bmi160_addr d) (bmm150_addr d) (mag_mode d) (config d) b
           (ACC_LSB d) (GYR_LSB d) (rate d).

Definition set_ACC_LSB (x : float P) (d : Driver) : Driver :=
  mkDriver (bmi160_addr d) (bmm150_addr d) (mag_mode d) (config d)
           (initialized d) x (GYR_LSB d) (rate d).

Definition set_GYR_LSB (x : float P) (d : Driver) : Driver :=
  mkDriver (bmi160_addr d) (bmm150_addr d) (mag_mode d) (config d)
           (initialized d) (ACC_LSB d) x (rate d).

Definition set_rate (r : RateState) (d : Driver) : Driver :=
  mkDriver (bmi160_addr d) (bmm150_addr d) (mag_mode d) (config d)
           (initialized d) (ACC_LSB d) (GYR_LSB d) r.

Definition set_acc_range (r : Z) (c : SensorConfig) : SensorConfig :=
  mkConfig (acc_odr c) r (gyr_odr c) (gyr_range c).

Definition set_gyr_range (r : Z) (c : SensorConfig) : SensorConfig :=
  mkConfig (acc_odr c) (acc_range c) (gyr_odr c) r.

(** *** Conversion factors *)

(** The first [switch]: the factor for an accelerometer range code; a
    code outside the [case] labels leaves the factor as it was. *)
Definition acc_lsb_for (code : Z) (current : float P) : float P :=
  match code with
  | 0x03 => f_lit P 16384
  | 0x05 => f_lit P 8192
  | 0x08 => f_lit P 4096
  | 0x0C => f_lit P 2048
  | _ => current
  end.

(** The second [switch]. *)
Definition gyr_lsb_for (code : Z) (current : float P) : float P :=
  match code with
  | 0x00 => f_lit P 16.384
  | 0x01 => f_lit P 32.768
  | 0x02 => f_lit P 65.536
  | 0x03 => f_lit P 131.072
  | 0x04 => f_lit P 262.144
  | _ => current
  end.

Definition update_conversion_factors (d : Driver) : Driver :=
  let d := set_ACC_LSB (acc_lsb_for (acc_range (config d)) (ACC_LSB d)) d in
  set_GYR_LSB (gyr_lsb_for (gyr_range (config d)) (GYR_LSB d)) d.

(** The range tables as the documentation of [IMU_setAccelRange] and
    [IMU_setGyroRange] gives them (code, LSB per unit). *)
Definition accel_range_table : list (Z * Q) :=
  [(0x03, 16384%Q); (0x05, 8192%Q); (0x08, 4096%Q); (0x0C, 2048%Q)].

Definition gyro_range_table : list (Z * Q) :=
  [(0x00, 16.384%Q); (0x01, 32.768%Q); (0x02, 65.536%Q);
   (0x03, 131.072%Q); (0x04, 262.144%Q)].

Fixpoint table_lookup (t : list (Z * Q)) (code : Z) : option (float P) :=
  match t with
  | [] => None
  | (c, v) :: rest => if c =? code then Some (f_lit P v) else table_lookup rest code
  end.

Definition valid_accel_range (code : Z) : Prop :=
  code = 0x03 \/ code = 0x05 \/ code = 0x08 \/ code = 0x0C.

Definition valid_gyro_range (code : Z) : Prop := 0x00 <= code <= 0x04.

(** The conversion factors are the table values of the configured range
    codes. *)
Definition factors_consistent (d : Driver) : Prop :=
  table_lookup accel_range_table (acc_range (config d)) = Some (ACC_LSB d) /\
  table_lookup gyro_range_table (gyr_range (config d)) = Some (GYR_LSB d).

(** *** Magnetometer bring-up *)

Definition init_bmm150_primary (addr : Z) : M bool :=
  require i2c_safe_write addr BMM150_POWER 0x01 ;;
  delay 20 ;;;
  '(ok, buf) <- i2c_safe_read addr BMM150_CHIP_ID [0] 1 ;;
  if negb ok then ret false else
  let chip_id := byte_at buf 0 in
  if negb (chip_id =? 0x32) then ret false else ret true.

Definition all_zero (data : list Z) : bool := forallb (fun b => b =? 0) data.

(** [status & (1 << 5)], the magnetometer data-ready bit. *)
Definition drdy_mag (status : Z) : bool :=
  negb (Z.land status (Z.shiftl 1 5) =? 0).

(** The commit value [0x80 | (1 << 7)]. *)
Definition MAG_IF_COMMIT : Z := Z.lor 0x80 (Z.shiftl 1 7).

(** Step 12 of [init_bmm150_secondary]: [for (int i = 0; i < n; i++)],
    returning [true] where the loop body returns and [false] where the
    loop runs out. *)
Fixpoint wait_mag_sync (n : nat) (bmi : Z) : M bool :=
  match n with
  | O => ret false
  | S n' =>
      '(ok, st) <- i2c_safe_read bmi BMI160_STATUS [0] 1 ;;
      if ok && drdy_mag (byte_at st 0) then
        '(ok2, data) <- i2c_safe_read bmi BMI160_DATA_0 (repeat 0 8%nat) 8 ;;
        if ok2 && negb (all_zero data) then ret true
        else delay 1 ;;; wait_mag_sync n' bmi
      else delay 1 ;;; wait_mag_sync n' bmi
  end.

(** [bmi] is the file-level [bmi160_addr] the function reads. *)
Definition init_bmm150_secondary (bmi : Z) (phys_addr : Z) : M bool :=
  let sec_addr := Z.shiftr phys_addr 1 in
  '(present, _) <- i2c_device_exists bmi (Some 0) BMI160_CHIP_ID ;;
  if negb present then ret false else
  require i2c_safe_write bmi BMI160_MAG_IF_0 sec_addr ;; delay 1 ;;;
  require i2c_safe_write bmi BMI160_MAG_IF_1 0x80 ;; delay 1 ;;;
  require i2c_safe_write bmi BMI160_MAG_IF_3 0x4B ;; delay 1 ;;;
  require i2c_safe_write bmi BMI160_MAG_IF_4 0x01 ;; delay 1 ;;;
  require i2c_safe_write bmi BMI160_MAG_IF_1 MAG_IF_COMMIT ;; delay 50 ;;;
  require i2c_safe_write bmi BMI160_MAG_IF_3 0x4B ;; delay 1 ;;;
  require i2c_safe_write bmi BMI160_MAG_IF_1 0x00 ;; delay 1 ;;;
  '(ok, ps) <- i2c_safe_read bmi BMI160_MAG_IF_4 [0] 1 ;;
  if negb ok then ret false else
  let power_status := byte_at ps 0 in
  if negb (power_status =? 0x01) then ret false else
  require i2c_safe_write bmi BMI160_MAG_IF_3 0x4C ;; delay 1 ;;;
  require i2c_safe_write bmi BMI160_MAG_IF_4 0x06 ;; delay 1 ;;;
  require i2c_safe_write bmi BMI160_MAG_IF_1 MAG_IF_COMMIT ;; delay 50 ;;;
  require i2c_safe_write bmi BMI160_MAG_CONF 0x0B ;; delay 1 ;;;
  require i2c_safe_write bmi BMI160_MAG_IF_2 0x42 ;; delay 1 ;;;
  require i2c_safe_write bmi BMI160_MAG_IF_1 0x03 ;; delay 1 ;;;
  require i2c_safe_write bmi BMI160_CMD BMI160_CMD_MAG_NORMAL ;; delay 100 ;;;
  synced <- wait_mag_sync 200 bmi ;;
  if synced then ret true else
  '(ok, data) <- i2c_safe_read bmi BMI160_DATA_0 (repeat 0 8%nat) 8 ;;
  if ok then ret (negb (all_zero data)) else ret false.

(** The two polling loops of [send_forced_mode_secondary]. *)
Fixpoint poll_drdy (n : nat) (bmi : Z) : M bool :=
  match n with
  | O => ret false
  | S n' =>
      '(ok, st) <- i2c_safe_read bmi BMI160_STATUS [0] 1 ;;
      if ok && drdy_mag (byte_at st 0) then ret true
      else delay 1 ;;; poll_drdy n' bmi
  end.

Definition send_forced_mode_secondary (bmi : Z) (addr : Z) : M bool :=
  require i2c_safe_write bmi BMI160_BMM150_IF 0x01 ;; delay 1 ;;;
  require i2c_safe_write bmi BMI160_MAG_IF_0 addr ;; delay 1 ;;;
  require i2c_safe_write bmi BMI160_MAG_IF_1 0x80 ;; delay 1 ;;;
  require i2c_safe_write bmi BMI160_MAG_IF_3 BMM150_OPMODE ;; delay 1 ;;;
  require i2c_safe_write bmi BMI160_MAG_IF_4 BMM150_FORCED_MODE ;; delay 1 ;;;
  require i2c_safe_write bmi BMI160_MAG_IF_1 MAG_IF_COMMIT ;;
  delay 2 ;;;
  ready <- poll_drdy 50 bmi ;;
  if ready then ret true else
  i2c_safe_write bmi BMI160_MAG_IF_3 0x4B ;;;
  i2c_safe_write bmi BMI160_MAG_IF_4 0x01 ;;;
  i2c_safe_write bmi BMI160_MAG_IF_1 MAG_IF_COMMIT ;;;
  delay 200 ;;;
  poll_drdy 50 bmi.

(** *** Decoding *)

(** [(int16_t)((hi << 8) | lo) >> k], stored in an [int16_t]. *)
Definition word_shifted (hi lo : Z) (k : Z) : Z :=
  to_int16 (Z.shiftr (to_int16 (Z.lor (Z.shiftl hi 8) lo)) k).

(** [(int16_t)(hi << 8) | lo], stored in an [int16_t]: the cast binds
    tighter than [|]. *)
Definition word_cast_or (hi lo : Z) : Z :=
  to_int16 (Z.lor (to_int16 (Z.shiftl hi 8)) lo).

(** The four assignments at the end of [read_bmm150_forced]. *)
Definition decode_bmm150 (buf : list Z) : (Z * Z * Z) * Z :=
  ((word_shifted (byte_at buf 1) (byte_at buf 0) 3,
    word_shifted (byte_at buf 3) (byte_at buf 2) 3,
    word_shifted (byte_at buf 5) (byte_at buf 4) 1),
   to_int16 (Z.lor (Z.shiftl (byte_at buf 7) 8) (byte_at buf 6))).

(** [addr] is the file-level [bmm150_addr]; the result is what the
    function leaves in [mag] and [*rhall], which it writes on every path. *)
Definition read_bmm150_forced (addr : Z) : M ((Z * Z * Z) * Z) :=
  ok <- i2c_safe_write addr BMM150_OPMODE BMM150_FORCED_MODE ;;
  if negb ok then ret (zero3, 0) else
  delay 1 ;;;
  '(ok, buf) <- i2c_safe_read addr BMM150_DATA_X (repeat 0 8%nat) 8 ;;
  if negb ok then ret (zero3, 0) else
  ret (decode_bmm150 buf).

(** The assignments of [IMU_readData] after a successful burst read. *)
Definition decode_burst (mode : MagMode) (buf : list Z) (s : Sample) : Sample :=
  let acc := (word_cast_or (byte_at buf 15) (byte_at buf 14),
              word_cast_or (byte_at buf 17) (byte_at buf 16),
              word_cast_or (byte_at buf 19) (byte_at buf 18)) in
  let gyr := (word_cast_or (byte_at buf 9) (byte_at buf 8),
              word_cast_or (byte_at buf 11) (byte_at buf 10),
              word_cast_or (byte_at buf 13) (byte_at buf 12)) in
  if MagMode_eqb mode SECONDARY then
    mkSample acc gyr
      (word_cast_or (byte_at buf 1) (byte_at buf 0),
       word_cast_or (byte_at buf 3) (byte_at buf 2),
       word_cast_or (byte_at buf 5) (byte_at buf 4))
      (word_cast_or (byte_at buf 7) (byte_at buf 6))
  else mkSample acc gyr (s_mag s) (s_rhall s).

(** *** Public operations *)

(** [if (mag_mode == SECONDARY) { if (send_forced_mode_secondary(...))
    delay(1); }] *)
Definition trigger_forced_mode (d : Driver) : M unit :=
  if MagMode_eqb (mag_mode d) SECONDARY then
    ok <- send_forced_mode_secondary (bmi160_addr d) (bmm150_addr d) ;;
    if ok then delay 1 else ret tt
  else ret tt.

(** The part of [IMU_readData] guarded by [if (bmi160_addr)]. *)
Definition read_bmi160 (d : Driver) (s : Sample) : M Sample :=
  trigger_forced_mode d ;;;
  '(ok, buf) <- i2c_safe_read (bmi160_addr d) BMI160_DATA_0 (repeat 0 20%nat) 20 ;;
  if ok then ret (decode_burst (mag_mode d) buf s) else ret s.

(** The outputs are cleared first, so the sample does not depend on what
    the caller's arrays held. *)
Definition IMU_readData (d : Driver) : M Sample :=
  let s := zero_sample in
  s <- (if negb (bmi160_addr d =? 0) then read_bmi160 d s else ret s) ;;
  if MagMode_eqb (mag_mode d) PRIMARY then
    '(mag, rhall) <- read_bmm150_forced (bmm150_addr d) ;;
    ret (mkSample (s_acc s) (s_gyr s) mag rhall)
  else ret s.

Definition IMU_setAccelRange (d : Driver) (range : Z) : M Driver :=
  if negb (bmi160_addr d =? 0) then
    i2c_safe_write (bmi160_addr d) BMI160_ACC_RANGE range ;;;
    ret (update_conversion_factors (set_config (set_acc_range range (config d)) d))
  else ret d.

Definition IMU_setGyroRange (d : Driver) (range : Z) : M Driver :=
  if negb (bmi160_addr d =? 0) then
    i2c_safe_write (bmi160_addr d) BMI160_GYR_RANGE range ;;;
    ret (update_conversion_factors (set_config (set_gyr_range range (config d)) d))
  else ret d.

Definition IMU_getMagMode (d : Driver) : MagMode := mag_mode d.

Definition IMU_isInitialized (d : Driver) : bool := initialized d.

(** *** Discovery *)

(** [for (addr in addrs) if (f(addr)) { ...; break; }]: the address at
    which the loop breaks, if it does. *)
Fixpoint first_match (f : Z -> M bool) (addrs : list Z) : M (option Z) :=
  match addrs with
  | [] => ret None
  | addr :: rest =>
      hit <- f addr ;;
      if hit then ret (Some addr) else first_match f rest
  end.

(** [for (uint8_t addr = lo; addr < lo + n; addr++)] *)
Definition addr_range (lo : Z) (n : nat) : list Z :=
  map (fun i => lo + Z.of_nat i) (seq 0 n).

(** [exists && chip_id == 0xD1] in the first loop of [IMU_begin]. *)
Definition probe_bmi160 (addr : Z) : M bool :=
  '(present, id) <- i2c_device_exists addr (Some 0) BMI160_CHIP_ID ;;
  ret (present && (match id with Some v => v | None => 0 end =? 0xD1)).

(** [i2c_device_exists(addr, &chip_id, BMM150_CHIP_ID) && chip_id == 0x32]
    in the full-bus sweep. *)
Definition probe_bmm150 (addr : Z) : M bool :=
  '(present, id) <- i2c_device_exists addr (Some 0) BMM150_CHIP_ID ;;
  ret (present && (match id with Some v => v | None => 0 end =? 0x32)).

(** [if (w) { delay(ms); }] *)
Definition write_then_delay (bmi reg val ms : Z) : M unit :=
  ok <- i2c_safe_write bmi reg val ;;
  if ok then delay ms else ret tt.

(** Step 2 of [IMU_begin].  Without [IMU_BMI160_BMM150_DEBUG] the first
    four [if]s have no statement of their own, so each guards the next
    [if]; with it, each guards a [Serial.println] and the writes are
    independent. *)
Definition configure_bmi160 (d : Driver) : M Driver :=
  let bmi := bmi160_addr d in
  let c := config d in
  let reset := write_then_delay bmi BMI160_CMD BMI160_CMD_SOFTRESET 100 in
  (if debug_build P then
     i2c_safe_write bmi BMI160_ACC_CONF (acc_odr c) ;;;
     i2c_safe_write bmi BMI160_ACC_RANGE (acc_range c) ;;;
     i2c_safe_write bmi BMI160_GYR_CONF (gyr_odr c) ;;;
     i2c_safe_write bmi BMI160_GYR_RANGE (gyr_range c) ;;;
     reset
   else
     ok1 <- i2c_safe_write bmi BMI160_ACC_CONF (acc_odr c) ;;
     if negb ok1 then ret tt else
     ok2 <- i2c_safe_write bmi BMI160_ACC_RANGE (acc_range c) ;;
     if negb ok2 then ret tt else
     ok3 <- i2c_safe_write bmi BMI160_GYR_CONF (gyr_odr c) ;;
     if negb ok3 then ret tt else
     ok4 <- i2c_safe_write bmi BMI160_GYR_RANGE (gyr_range c) ;;
     if negb ok4 then ret tt else
     reset) ;;;
  write_then_delay bmi BMI160_CMD BMI160_CMD_ACC_NORMAL 10 ;;;
  write_then_delay bmi BMI160_CMD BMI160_CMD_GYR_NORMAL 10 ;;;
  ret (update_conversion_factors d).

(** What each search of [IMU_begin] came back with: the address at which
    its loop stopped.  The bridged search and the sweep are [None] when
    they were not entered at all. *)
Record Tiers : Type := mkTiers {
  t_bmi : option Z;
  t_direct : option Z;
  t_bridged : option (option Z);
  t_sweep : option (option Z)
}.

Definition found_magnetometer (a : option Z) (m : MagMode) (d : Driver) : Driver :=
  match a with
  | Some addr => set_magnetometer addr m d
  | None => d
  end.

(** Steps 1 and 2 of [IMU_begin]: the probe of the two candidate
    addresses and, if one matched, the configuration of the chip. *)
Definition find_primary (d : Driver) : M (option Z * Driver) :=
  b <- first_match probe_bmi160 [BMI160_ADDR_68; BMI160_ADDR_69] ;;
  let d := match b with Some a => set_bmi160_addr a d | None => d end in
  d <- (if negb (bmi160_addr d =? 0) then configure_bmi160 d else ret d) ;;
  ret (b, d).

(** Steps 3 and 4: the direct search, the bridged search and the sweep.
    [b] is the result of step 1, passed through to the record of results. *)
Definition find_magnetometer (b : option Z) (d : Driver) : M (Tiers * Driver) :=
  t1 <- first_match init_bmm150_primary (addr_range 0x10 4) ;;
  let d := found_magnetometer t1 PRIMARY d in
  if negb (bmi160_addr d =? 0) && (bmm150_addr d =? 0) then
    t2 <- first_match (init_bmm150_secondary (bmi160_addr d)) (addr_range 0x10 4) ;;
    let d := found_magnetometer t2 SECONDARY d in
    if bmm150_addr d =? 0 then
      t3 <- first_match probe_bmm150 (addr_range 0x00 128) ;;
      let d := found_magnetometer t3 PRIMARY d in
      ret (mkTiers b t1 (Some t2) (Some t3), d)
    else ret (mkTiers b t1 (Some t2) None, d)
  else ret (mkTiers b t1 None None, d).

(** The body of [IMU_begin] up to the final [if (!bmm150_addr)], with the
    results of the searches returned next to the driver state. *)
Definition discover (d : Driver) : M (Tiers * Driver) :=
  '(b, d) <- find_primary d ;;
  find_magnetometer b d.

(** [Serial.begin] and [Wire.begin] have no counterpart in the model. *)
Definition IMU_begin (d : Driver) : M (bool * Driver) :=
  '(_, d) <- discover d ;;
  let d := if bmm150_addr d =? 0 then d else set_initialized true d in
  ret (initialized d, d).

(** *** Rate limiter *)

(** [sum / samples] with [sum] an [int32_t] and [samples] a [uint32_t]:
    the usual arithmetic conversions make the division unsigned; the
    quotient is stored in an [int16_t].  Division by zero has no result. *)
Definition mean (sum n : Z) : option Z :=
  if n =? 0 then None else Some (to_int16 (u32 sum / n)).

Definition mean3 (sum : Z * Z * Z) (n : Z) : option (Z * Z * Z) :=
  let '(x, y, z) := sum in
  match mean x n, mean y n, mean z n with
  | Some a, Some b, Some c => Some (a, b, c)
  | _, _, _ => None
  end.

(** [sum[i] += raw[i]] on [int32_t] sums; an overflow wraps around, as it
    does on the two's-complement targets of the driver. *)
Definition add3 (sum raw : Z * Z * Z) : Z * Z * Z :=
  let '(x, y, z) := sum in
  let '(a, b, c) := raw in
  (to_int32 (x + a), to_int32 (y + b), to_int32 (z + c)).

Definition accumulate (r : RateState) (s : Sample) : RateState :=
  mkRate (last_time r)
         (add3 (acc_sum r) (s_acc s)) (add3 (gyr_sum r) (s_gyr s))
         (add3 (mag_sum r) (s_mag s)) (to_int32 (rhall_sum r + s_rhall s))
         (u32 (samples r + 1)).

(** The ten divisions of the flush. *)
Definition averages (r : RateState) : option Sample :=
  match mean3 (acc_sum r) (samples r), mean3 (gyr_sum r) (samples r),
        mean3 (mag_sum r) (samples r), mean (rhall_sum r) (samples r) with
  | Some a, Some g, Some m, Some h => Some (mkSample a g m h)
  | _, _, _, _ => None
  end.

(** The clamped frequency and the interval computed from it. *)
Definition output_interval (mode : MagMode) (frequency : float P) : Z :=
  let frequency :=
    if f_leb P frequency (f_lit P 0) then f_lit P 10 else frequency in
  let max_frequency := f_lit P (inject_Z MAX_ACC_FREQUENCY) in
  let max_frequency :=
    if f_ltb P (f_lit P (inject_Z MAX_GYR_FREQUENCY)) max_frequency
    then f_lit P (inject_Z MAX_GYR_FREQUENCY) else max_frequency in
  let max_frequency :=
    if negb (MagMode_eqb mode NONE)
       && f_ltb P (f_lit P (inject_Z MAX_MAG_FREQUENCY)) max_frequency
    then f_lit P (inject_Z MAX_MAG_FREQUENCY) else max_frequency in
  let frequency :=
    if f_ltb P max_frequency frequency then max_frequency else frequency in
  u32 (f_to_ulong P (f_div P (f_lit P 1000) frequency)).

(** The two output-rate writes made on every call. *)
Definition push_native_rates (d : Driver) : M unit :=
  if negb (bmi160_addr d =? 0) then
    i2c_safe_write (bmi160_addr d) BMI160_ACC_CONF 0x0C ;;;
    i2c_safe_write (bmi160_addr d) BMI160_GYR_CONF 0x0C ;;;
    ret tt
  else ret tt.

(** [out] is what the caller's output arrays hold on entry; the result is
    the new driver state and what they hold on return, or [None] if the
    call divided by zero.  The unused local [samples_per_interval] is left
    out. *)
Definition IMU_readDataWithFrequency (d : Driver) (out : Sample)
    (frequency : float P) : M (option (Driver * Sample)) :=
  let interval := output_interval (mag_mode d) frequency in
  push_native_rates d ;;;
  current_time <- millis ;;
  let r := rate d in
  if interval <=? u32 (current_time - last_time r) then
    if 0 <? samples r then
      match averages r with
      | Some avg =>
          ret (Some (set_rate (mkRate current_time zero3 zero3 zero3 0 0) d, avg))
      | None => ret None
      end
    else
      ret (Some (set_rate (mkRate current_time (acc_sum r) (gyr_sum r)
                                  (mag_sum r) (rhall_sum r) (samples r)) d,
                 out))
  else
    s <- IMU_readData d ;;
    ret (Some (set_rate (accumulate r s) d, out)).

(** The clock value a call of [IMU_readDataWithFrequency] compares with
    [last_time], and the outcome of its test
    [current_time - last_time >= interval]. *)
Definition clock_reading (d : Driver) (w : World) : Z :=
  fst (millis (snd (push_native_rates d w))).

Definition interval_elapsed (d : Driver) (frequency : float P) (w : World) : bool :=
  output_interval (mag_mode d) frequency
    <=? u32 (clock_reading d w - last_time (rate d)).

(** The loop of a caller that polls the rate limiter [n] times with the
    same output arrays. *)
Fixpoint poll (n : nat) (frequency : float P) (d : Driver) (out : Sample)
    : M (option (Driver * Sample)) :=
  match n with
  | O => ret (Some (d, out))
  | S n' =>
      r <- IMU_readDataWithFrequency d out frequency ;;
      match r with
      | Some (d', out') => poll n' frequency d' out'
      | None => ret None
      end
  end.

(** *** Sequences of public operations *)

Inductive Call : Type :=
| CallBegin
| CallReadData
| CallReadDataWithFrequency (out : Sample) (frequency : float P)
| CallSetAccelRange (range : Z)
| CallSetGyroRange (range : Z)
| CallGetMagMode
| CallIsInitialized.

(** One public operation on the driver state; [None] if it trapped. *)
Definition run_call (c : Call) (d : Driver) : M (option Driver) :=
  match c with
  | CallBegin => '(_, d') <- IMU_begin d ;; ret (Some d')
  | CallReadData => IMU_readData d ;;; ret (Some d)
  | CallReadDataWithFrequency out frequency =>
      r <- IMU_readDataWithFrequency d out frequency ;;
      ret (match r with Some (d', _) => Some d' | None => None end)
  | CallSetAccelRange range => d' <- IMU_setAccelRange d range ;; ret (Some d')
  | CallSetGyroRange range => d' <- IMU_setGyroRange d range ;; ret (Some d')
  | CallGetMagMode => ret (Some d)
  | CallIsInitialized => ret (Some d)
  end.

Fixpoint run_calls (cs : list Call) (d : Driver) : M (option Driver) :=
  match cs with
  | [] => ret (Some d)
  | c :: rest =>
      r <- run_call c d ;;
      match r with
      | Some d' => run_calls rest d'
      | None => ret None
      end
  end.

(** The range arguments of a call are valid codes. *)
Definition valid_call (c : Call) : Prop :=
  match c with
  | CallSetAccelRange range => valid_accel_range range
  | CallSetGyroRange range => valid_gyro_range range
  | _ => True
  end.

Definition is_begin (c : Call) : bool :=
  match c with CallBegin => true | _ => false end.

(** The four topology variables. *)
Definition topology (d : Driver) : Z * Z * MagMode * bool :=
  (bmi160_addr d, bmm150_addr d, mag_mode d, initialized d).

(** *** The rate limiter as the design text orders it

    "Each call performs exactly one readOnce() and folds it into the
    accumulator, then checks elapsed time since the last flush."  Only the
    order of the steps differs from [IMU_readDataWithFrequency]; the
    averaging is the driver's. *)
Definition readAtRate_design (d : Driver) (out : Sample) (frequency : float P)
    : M (option (Driver * Sample)) :=
  let interval := output_interval (mag_mode d) frequency in
  push_native_rates d ;;;
  s <- IMU_readData d ;;
  let r := accumulate (rate d) s in
  current_time <- millis ;;
  if interval <=? u32 (current_time - last_time r) then
    if 0 <? samples r then
      match averages r with
      | Some avg =>
          ret (Some (set_rate (mkRate current_time zero3 zero3 zero3 0 0) d, avg))
      | None => ret None
      end
    else ret (Some (set_rate r d, out))
  else ret (Some (set_rate r d, out)).

End Driver.

Arguments ret {P A} a w.
Arguments bind {P A B} m k w.
Arguments bus {P} w.
Arguments log {P} w.
Arguments bmi160_addr {P} d.
Arguments bmm150_addr {P} d.
Arguments mag_mode {P} d.
Arguments config {P} d.
Arguments initialized {P} d.
Arguments ACC_LSB {P} d.
Arguments GYR_LSB {P} d.
Arguments rate {P} d.

(** ** Reference definitions

    What the documentation calls a little-endian signed 16-bit word, the
    truncated mean, and the rate limiter as the design text orders its
    steps.  They are compared with the driver, never used by it. *)

Definition le_int16 (lo hi : Z) : Z := to_int16 (lo + 256 * hi).

(** The word at byte offsets [i] and [i + 1] of a buffer. *)
Definition word_at (buf : list Z) (i : nat) : Z :=
  le_int16 (byte_at buf i) (byte_at buf (S i)).

(** The topology variables as they are before the first [IMU_begin]. *)
Definition fresh_topology {P : Platform} (d : Driver P) : Prop :=
  bmi160_addr d = 0 /\ bmm150_addr d = 0 /\ mag_mode d = NONE /\
  initialized d = false.

(** The bus address an event is directed at satisfies [A]. *)
Definition on_addr (A : Z -> Prop) (e : Event) : Prop :=
  match e with
  | EvTx a _ _ | EvRx a _ _ => A a
  | _ => True
  end.

(** Every event a computation adds to the log satisfies [S]. *)
Definition emits {P : Platform} {A : Type} (S : Event -> Prop) (m : M P A) : Prop :=
  forall w, exists l, log (snd (m w)) = l ++ log w /\ Forall S l.

(** The first transmission of the identity probe at [addr], by which the
    full-bus sweep shows in the log. *)
Definition sweep_probe (addr : Z) : Event := EvTx addr [BMM150_CHIP_ID] true.

(** The five ways a discovery that starts from fresh topology variables
    can end: what the searches returned, what the driver recorded, and
    what the added bus traffic [l] shows. *)
Inductive Outcome {P : Platform} (t : Tiers) (d : Driver P) (l : list Event) : Prop :=
| FoundDirect (a : Z) :
    t_direct t = Some a -> 0x10 <= a <= 0x13 ->
    t_bridged t = None -> t_sweep t = None ->
    bmm150_addr d = a -> mag_mode d = PRIMARY ->
    Forall (on_addr (fun x => x <> 0)) l -> Outcome t d l
| NothingWithoutPrimary :
    t_direct t = None -> t_bmi t = None ->
    t_bridged t = None -> t_sweep t = None ->
    bmm150_addr d = 0 -> mag_mode d = NONE ->
    Forall (on_addr (fun x => x <> 0)) l -> Outcome t d l
| FoundBridged (a : Z) :
    t_direct t = None -> t_bmi t <> None ->
    t_bridged t = Some (Some a) -> 0x10 <= a <= 0x13 -> t_sweep t = None ->
    bmm150_addr d = a -> mag_mode d = SECONDARY ->
    Forall (on_addr (fun x => x <> 0)) l -> Outcome t d l
| FoundBySweep (a : Z) :
    t_direct t = None -> t_bmi t <> None ->
    t_bridged t = Some None -> t_sweep t = Some (Some a) -> 0x00 <= a <= 0x7F ->
    bmm150_addr d = a -> mag_mode d = PRIMARY ->
    In (sweep_probe 0x00) l -> Outcome t d l
| NothingAfterSweep :
    t_direct t = None -> t_bmi t <> None ->
    t_bridged t = Some None -> t_sweep t = Some None ->
    bmm150_addr d = 0 -> mag_mode d = NONE ->
    (forall a, 0x00 <= a <= 0x7F -> In (sweep_probe a) l) -> Outcome t d l.

(** The 20-byte burst reads in a bus log: every [IMU_readData] that
    reaches the primary chip issues one. *)
Definition is_burst_read (e : Event) : bool :=
  match e with
  | EvRx _ len _ => len =? 20
  | _ => false
  end.

Definition burst_reads (l : list Event) : nat := length (filter is_burst_read l).

(** A magnetometer was found by some tier of the discovery. *)
Definition found_by_some_tier (t : Tiers) : bool :=
  match t_direct t, t_bridged t, t_sweep t with
  | Some _, _, _ => true
  | _, Some (Some _), _ => true
  | _, _, Some (Some _) => true
  | _, _, _ => false
  end.

(** The same, at a bus address other than 0. *)
Definition found_at_nonzero (t : Tiers) : bool :=
  match t_direct t, t_bridged t, t_sweep t with
  | Some a, _, _ => negb (a =? 0)
  | _, Some (Some a), _ => negb (a =? 0)
  | _, _, Some (Some a) => negb (a =? 0)
  | _, _, _ => false
  end.

(** Integer-truncated mean of a non-empty list of readings. *)
Definition trunc_mean (l : list Z) : Z :=
  Z.quot (fold_right Z.add 0 l) (Z.of_nat (length l)).

(** ** A simulated bus

    Devices are register files at fixed addresses.  A transmission is
    acknowledged iff a device sits at the address and moves the register
    pointer to its first byte; a request returns the registers from the
    pointer on.  The clock advances only in [delay].  Floats are exact
    rationals. *)
Module Sim.

Definition Regs : Type := Z -> Z.

Record SimBus : Type := mkSim { ptr : Z; now : Z }.

Definition sim_transmit (devs : Z -> option Regs) (addr : Z) (bytes : list Z)
    (stop : bool) (b : SimBus) : Z * SimBus :=
  match devs addr with
  | Some _ => (0, mkSim (hd (ptr b) bytes) (now b))
  | None => (2, b)
  end.

Definition sim_request (devs : Z -> option Regs) (addr len timeout : Z)
    (b : SimBus) : list Z * SimBus :=
  match devs addr with
  | Some regs =>
      (map (fun i => regs (ptr b + Z.of_nat i)) (seq 0 (Z.to_nat len)), b)
  | None => ([], b)
  end.

Definition sim_delay (ms : Z) (b : SimBus) : SimBus := mkSim (ptr b) (now b + ms).

Definition sim_millis (b : SimBus) : Z * SimBus := (now b, b).

Definition q_to_ulong (q : Q) : Z := Z.quot (Qnum q) (Z.pos (Qden q)).

Definition platform (devs : Z -> option Regs) : Platform :=
  mkPlatform SimBus (sim_transmit devs) (sim_request devs) sim_delay sim_millis
             Q (fun q => q) Qle_bool (fun a b => negb (Qle_bool b a)) Qdiv
             q_to_ulong false.

Definition world0 (devs : Z -> option Regs) : World (platform devs) :=
  mkWorld (platform devs) (mkSim 0 0 : Bus (platform devs)) [].

(** Registers given as (register, value) pairs; every other register
    reads 0. *)
Fixpoint regfile (l : list (Z * Z)) : Regs :=
  fun r =>
    match l with
    | [] => 0
    | (k, v) :: rest => if k =? r then v else regfile rest r
    end.

(** A BMI160 whose accelerometer X word reads -3 (bytes 0xFD, 0xFF at
    offsets 14 and 15 of the data window); no magnetometer behind it. *)
Definition bmi160_regs : Regs :=
  regfile [(0x00, 0xD1); (0x12, 0xFD); (0x13, 0xFF)].

(** A BMI160 with a magnetometer on its secondary interface: power status
    0x01 relayed, data-ready set, and a data window counting 1..20. *)
Definition bmi160_bridge_regs : Regs :=
  fun r =>
    if r =? 0x00 then 0xD1
    else if r =? 0x4F then 0x01
    else if r =? 0x1B then 0x20
    else if (0x04 <=? r) && (r <? 0x18) then r - 3
    else 0.

(** A BMM150 whose data window holds the bytes
    [{0x10,0x00,0x20,0x00,0x08,0x00,0x01,0x00}]. *)
Definition bmm150_regs : Regs :=
  regfile [(0x40, 0x32); (0x42, 0x10); (0x44, 0x20); (0x46, 0x08); (0x48, 0x01)].

Definition only (addr : Z) (regs : Regs) : Z -> option Regs :=
  fun a => if a =? addr then Some regs else None.

Definition also (addr : Z) (regs : Regs) (devs : Z -> option Regs)
  : Z -> option Regs :=
  fun a => if a =? addr then Some regs else devs a.

(** Only the primary chip. *)
Definition bus_bmi_only : Z -> option Regs := only 0x68 bmi160_regs.

(** Only a magnetometer, wired directly. *)
Definition bus_mag_only : Z -> option Regs := only 0x10 bmm150_regs.

(** Both chips, the magnetometer wired directly. *)
Definition bus_direct : Z -> option Regs := also 0x10 bmm150_regs bus_bmi_only.

(** Both chips, the magnetometer behind the primary chip. *)
Definition bus_bridged : Z -> option Regs := only 0x69 bmi160_bridge_regs.

(** The primary chip and a magnetometer at the out-of-range address 0x2A,
    which only the sweep reaches. *)
Definition bus_sweep_2A : Z -> option Regs := also 0x2A bmm150_regs bus_bmi_only.

(** The primary chip and a device that answers the identity probe at the
    general-call address 0x00. *)
Definition bus_sweep_00 : Z -> option Regs := also 0x00 bmm150_regs bus_bmi_only.

(** The bus with only the primary chip, whose accelerometer X reads -3. *)
Definition P_bmi : Platform := platform bus_bmi_only.

(** [IMU_begin], then four polls at 50 Hz in the same millisecond: the
    first finds the interval elapsed with nothing accumulated and only
    stamps the time, the other three accumulate one sample each. *)
Definition three_samples : option (Driver P_bmi * Sample) * World P_bmi :=
  let '(_, d, w) := IMU_begin P_bmi (driver_init P_bmi) (world0 bus_bmi_only) in
  poll P_bmi 4 50%Q d zero_sample w.

(** The caller then waits out the 20 ms interval; the log is cleared so
    that the traffic of the next call can be read off. *)
Definition interval_later (w : World P_bmi) : World P_bmi :=
  mkWorld P_bmi (bus (snd (delay P_bmi 20 w))) [].

(** The driver and the world after [IMU_begin] on the bus with only the
    primary chip. *)
Definition bmi_driver : Driver P_bmi :=
  snd (fst (IMU_begin P_bmi (driver_init P_bmi) (world0 bus_bmi_only))).

Definition bmi_world : World P_bmi :=
  snd (IMU_begin P_bmi (driver_init P_bmi) (world0 bus_bmi_only)).

(** The bus with only a directly wired magnetometer. *)
Definition P_mag : Platform := platform bus_mag_only.

(** The bus with the magnetometer behind the primary chip, and the driver
    and the world after [IMU_begin] on it. *)
Definition P_bridged : Platform := platform bus_bridged.

Definition bridged_driver : Driver P_bridged :=
  snd (fst (IMU_begin P_bridged (driver_init P_bridged) (world0 bus_bridged))).

Definition bridged_world : World P_bridged :=
  snd (IMU_begin P_bridged (driver_init P_bridged) (world0 bus_bridged)).

End Sim.

(** * Properties *)

(** ** Machine integers and words *)

Lemma MagMode_eqb_spec (a b : MagMode) : MagMode_eqb a b = true <-> a = b.
Proof. destruct a, b; simpl; split; congruence. Qed.

Lemma MagMode_eqb_refl (a : MagMode) : MagMode_eqb a a = true.
Proof. now destruct a. Qed.

Lemma u8_is_u8 (x : Z) : is_u8 (u8 x).
Proof. unfold is_u8, u8. apply Z.mod_pos_bound. lia. Qed.

Lemma to_int16_range (x : Z) : is_int16 (to_int16 x).
Proof.
  unfold is_int16, to_int16.
  pose proof (Z.mod_pos_bound (x + 32768) 65536). lia.
Qed.

Lemma to_int16_id (x : Z) : is_int16 x -> to_int16 x = x.
Proof.
  unfold is_int16, to_int16. intros H.
  rewrite Z.mod_small by lia. lia.
Qed.

Lemma byte_at_u8 (buf : list Z) (i : nat) :
  Forall is_u8 buf -> is_u8 (byte_at buf i).
Proof.
  unfold byte_at. intros H. revert i.
  induction H as [|x l Hx Hl IH]; intros [|i]; simpl; auto; unfold is_u8; lia.
Qed.

(** A multiple of 256 and a byte have no bit in common. *)
Lemma lor_high_low (k lo : Z) : is_u8 lo -> Z.lor (256 * k) lo = 256 * k + lo.
Proof.
  unfold is_u8. intros Hlo.
  assert (H0 : Z.land (256 * k) lo = 0).
  2: { rewrite <- (Z.lxor_lor _ _ H0). symmetry. now apply Z.add_nocarry_lxor. }
  apply Z.bits_inj'. intros n Hn.
  rewrite Z.land_spec, Z.bits_0.
  destruct (Z.ltb_spec n 8) as [Hlt|Hge].
  - replace (256 * k) with (k * 2 ^ 8) by lia.
    rewrite Z.mul_pow2_bits_low by lia. reflexivity.
  - destruct (Z.eq_dec lo 0) as [->|Hnz].
    + rewrite Z.bits_0. apply andb_false_r.
    + rewrite (Z.bits_above_log2 lo n); [apply andb_false_r | lia |].
      apply Z.log2_lt_pow2; [lia|].
      apply Z.lt_le_trans with (2 ^ 8); [change (2 ^ 8) with 256; lia|].
      apply Z.pow_le_mono_r; lia.
Qed.

Lemma shiftl8 (x : Z) : Z.shiftl x 8 = 256 * x.
Proof. rewrite Z.shiftl_mul_pow2 by lia. change (2 ^ 8) with 256. lia. Qed.

(** [(int16_t)((hi << 8) | lo)] is the little-endian word. *)
Lemma or_then_cast (hi lo : Z) :
  is_u8 lo -> to_int16 (Z.lor (Z.shiftl hi 8) lo) = le_int16 lo hi.
Proof.
  intros Hlo. unfold le_int16.
  rewrite shiftl8, lor_high_low by assumption. f_equal. lia.
Qed.

(** [(int16_t)(hi << 8) | lo] is the little-endian word as well: the low
    byte of the cast operand is zero, so the late [|] cannot carry. *)
Lemma word_cast_or_le (hi lo : Z) :
  is_u8 hi -> is_u8 lo -> word_cast_or hi lo = le_int16 lo hi.
Proof.
  unfold is_u8. intros Hhi Hlo.
  unfold word_cast_or, le_int16. rewrite shiftl8.
  assert (E : to_int16 (256 * hi)
              = 256 * (if hi <? 128 then hi else hi - 256)).
  { unfold to_int16. destruct (Z.ltb_spec hi 128).
    - rewrite Z.mod_small by lia. lia.
    - replace (256 * hi + 32768) with ((256 * hi - 32768) + 1 * 65536) by lia.
      rewrite Z.mod_add by lia. rewrite Z.mod_small by lia. lia. }
  rewrite E, lor_high_low by (unfold is_u8; lia).
  unfold to_int16. destruct (Z.ltb_spec hi 128).
  - f_equal. f_equal. lia.
  - replace (256 * (hi - 256) + lo + 32768)
      with ((lo + 256 * hi + 32768) + (-1) * 65536) by lia.
    rewrite Z.mod_add by lia. reflexivity.
Qed.

(** An arithmetic right shift keeps a 16-bit value in range. *)
Lemma shiftr_int16 (x k : Z) : 0 <= k -> is_int16 x -> is_int16 (Z.shiftr x k).
Proof.
  unfold is_int16. intros Hk Hx.
  rewrite Z.shiftr_div_pow2 by assumption.
  assert (Hp : 0 < 2 ^ k) by (apply Z.pow_pos_nonneg; lia).
  split.
  - apply Z.div_le_lower_bound; [assumption|]. nia.
  - apply Z.le_trans with (32767 / 2 ^ k).
    + apply Z.div_le_mono; lia.
    + apply Z.div_le_upper_bound; [assumption|]. nia.
Qed.

Lemma word_shifted_le (hi lo k : Z) :
  0 <= k -> is_u8 lo -> word_shifted hi lo k = Z.shiftr (le_int16 lo hi) k.
Proof.
  intros Hk Hlo. unfold word_shifted.
  rewrite or_then_cast by assumption.
  apply to_int16_id, shiftr_int16; [assumption|].
  unfold le_int16. apply to_int16_range.
Qed.

(** ** Bus helpers *)

Section BusFacts.

Context (P : Platform).

(** A successful [i2c_safe_read] overwrote the first [len] bytes of the
    buffer with the received bytes. *)
Lemma i2c_safe_read_ok (addr reg : Z) (buf : list Z) (len : Z)
    (w w' : World P) (buf' : list Z) :
  i2c_safe_read P addr reg buf len w = ((true, buf'), w') ->
  exists rx, Z.of_nat (length rx) = len /\
             buf' = map u8 rx ++ skipn (Z.to_nat len) buf.
Proof.
  unfold i2c_safe_read, bind, ret.
  destruct (i2c_device_exists P addr None 0 w) as [[present id] w1].
  destruct present; simpl; [|congruence].
  destruct (transmit P addr [reg] false w1) as [st w2].
  destruct (st =? 0); simpl; [|congruence].
  destruct (request P 10 addr len w2) as [rx w3].
  destruct (Z.eqb_spec (Z.of_nat (length rx)) len) as [E|E]; simpl; [|congruence].
  intros H. injection H as <- <-. exists rx. split; [assumption|reflexivity].
Qed.

(** Whatever the outcome, the buffer holds bytes afterwards if it did
    before. *)
Lemma i2c_safe_read_bytes (addr reg : Z) (buf : list Z) (len : Z)
    (w w' : World P) (ok : bool) (buf' : list Z) :
  Forall is_u8 buf ->
  i2c_safe_read P addr reg buf len w = ((ok, buf'), w') ->
  Forall is_u8 buf'.
Proof.
  intros Hbuf H. destruct ok.
  - apply i2c_safe_read_ok in H. destruct H as (rx & _ & ->).
    apply Forall_app. split.
    + apply Forall_forall. intros x Hx. apply in_map_iff in Hx.
      destruct Hx as (y & <- & _). apply u8_is_u8.
    + rewrite <- (firstn_skipn (Z.to_nat len) buf) in Hbuf.
      apply Forall_app in Hbuf. apply Hbuf.
  - revert H. unfold i2c_safe_read, bind, ret.
    destruct (i2c_device_exists P addr None 0 w) as [[present id] w1].
    destruct present; simpl; [|intros H; injection H as <- <-; assumption].
    destruct (transmit P addr [reg] false w1) as [st w2].
    destruct (st =? 0); simpl; [|intros H; injection H as <- <-; assumption].
    destruct (request P 10 addr len w2) as [rx w3].
    destruct (Z.of_nat (length rx) =? len); simpl; [congruence|].
    intros H; injection H as <- <-; assumption.
Qed.

Lemma zeros_u8 (n : nat) : Forall is_u8 (repeat 0 n).
Proof. apply Forall_forall. intros x Hx. apply repeat_spec in Hx. subst. unfold is_u8. lia. Qed.

(** ** Decoding *)

Lemma decode_bmm150_words (buf : list Z) :
  Forall is_u8 buf ->
  decode_bmm150 buf =
    ((Z.shiftr (word_at buf 0) 3, Z.shiftr (word_at buf 2) 3,
      Z.shiftr (word_at buf 4) 1), word_at buf 6).
Proof.
  intros H. unfold decode_bmm150, word_at.
  rewrite !word_shifted_le by (try lia; apply byte_at_u8; assumption).
  rewrite or_then_cast by (apply byte_at_u8; assumption).
  reflexivity.
Qed.

Lemma decode_burst_words (mode : MagMode) (buf : list Z) (s : Sample) :
  Forall is_u8 buf ->
  decode_burst mode buf s =
    mkSample (word_at buf 14, word_at buf 16, word_at buf 18)
             (word_at buf 8, word_at buf 10, word_at buf 12)
             (if MagMode_eqb mode SECONDARY
              then (word_at buf 0, word_at buf 2, word_at buf 4) else s_mag s)
             (if MagMode_eqb mode SECONDARY then word_at buf 6 else s_rhall s).
Proof.
  intros H. unfold decode_burst, word_at.
  rewrite !word_cast_or_le by (apply byte_at_u8; assumption).
  destruct (MagMode_eqb mode SECONDARY); reflexivity.
Qed.

(** C6.  In the forced-mode read of a directly wired magnetometer, once
    the mode write and the 8-byte read have succeeded, X and Y are the
    little-endian signed 16-bit words at offsets 0-1 and 2-3 shifted right
    arithmetically by 3 bits, Z is the word at offsets 4-5 shifted right by
    1 bit, and RHALL is the unshifted word at offsets 6-7; the buffer
    [{0x10,0x00,0x20,0x00,0x08,0x00,0x01,0x00}] decodes to 2, 4, 4 and 1. *)
Theorem read_bmm150_forced_decodes (addr : Z) (w w1 w2 : World P) (buf : list Z) :
  i2c_safe_write P addr BMM150_OPMODE BMM150_FORCED_MODE w = (true, w1) ->
  i2c_safe_read P addr BMM150_DATA_X (repeat 0 8%nat) 8 (snd (delay P 1 w1))
    = ((true, buf), w2) ->
  read_bmm150_forced P addr w =
    (((Z.shiftr (word_at buf 0) 3, Z.shiftr (word_at buf 2) 3,
       Z.shiftr (word_at buf 4) 1), word_at buf 6), w2)
  /\ decode_bmm150 [0x10; 0x00; 0x20; 0x00; 0x08; 0x00; 0x01; 0x00]
     = ((2, 4, 4), 1).
Proof.
  intros Hw Hr. split; [|reflexivity].
  unfold read_bmm150_forced, bind, ret. rewrite Hw. simpl.
  simpl in Hr. rewrite Hr. simpl.
  rewrite decode_bmm150_words; [reflexivity|].
  eapply i2c_safe_read_bytes; [apply (zeros_u8 8)|exact Hr].
Qed.

(** C7.  With the primary chip present and the 20-byte burst read
    successful, the accelerometer axes are the little-endian signed words
    at offsets 14, 16 and 18, the gyroscope axes those at 8, 10 and 12;
    in SECONDARY mode the magnetometer axes are the words at 0, 2 and 4
    and RHALL the word at 6; in PRIMARY mode the magnetometer outputs are
    whatever the separate forced-mode read returns, and in NONE mode they
    stay zero. *)
Theorem IMU_readData_burst_decode (d : Driver P) (w w2 : World P) (buf : list Z) :
  bmi160_addr d <> 0 ->
  i2c_safe_read P (bmi160_addr d) BMI160_DATA_0 (repeat 0 20%nat) 20
                (snd (trigger_forced_mode P d w)) = ((true, buf), w2) ->
  let s := fst (IMU_readData P d w) in
  s_acc s = (word_at buf 14, word_at buf 16, word_at buf 18) /\
  s_gyr s = (word_at buf 8, word_at buf 10, word_at buf 12) /\
  match mag_mode d with
  | SECONDARY =>
      s_mag s = (word_at buf 0, word_at buf 2, word_at buf 4) /\
      s_rhall s = word_at buf 6
  | PRIMARY =>
      (s_mag s, s_rhall s) = fst (read_bmm150_forced P (bmm150_addr d) w2)
  | NONE => s_mag s = zero3 /\ s_rhall s = 0
  end.
Proof.
  intros Hbmi Hr.
  assert (Hu : Forall is_u8 buf)
    by (eapply i2c_safe_read_bytes; [apply (zeros_u8 20)|exact Hr]).
  unfold IMU_readData, read_bmi160, bind, ret.
  destruct (Z.eqb_spec (bmi160_addr d) 0) as [E|_]; [contradiction|]. simpl.
  destruct (trigger_forced_mode P d w) as [[] w1]. simpl in Hr. rewrite Hr.
  rewrite decode_burst_words by assumption.
  destruct (mag_mode d); simpl.
  - repeat split; reflexivity.
  - destruct (read_bmm150_forced P (bmm150_addr d) w2) as [[mag rhall] w3].
    simpl. repeat split; reflexivity.
  - repeat split; reflexivity.
Qed.

End BusFacts.

(** ** Bus traffic *)

Section Traffic.

Context (P : Platform).

Lemma emits_ret {A : Type} (S : Event -> Prop) (a : A) : emits S (@ret P A a).
Proof. intros w. exists []. split; [reflexivity|constructor]. Qed.

Lemma emits_bind {A B : Type} (S : Event -> Prop) (m : M P A) (k : A -> M P B) :
  emits S m -> (forall a, emits S (k a)) -> emits S (bind m k).
Proof.
  intros Hm Hk w. unfold bind.
  destruct (Hm w) as (l1 & E1 & F1). destruct (m w) as [a w1]. simpl in E1.
  destruct (Hk a w1) as (l2 & E2 & F2).
  exists (l2 ++ l1). split.
  - rewrite E2, E1. apply app_assoc.
  - apply Forall_app. split; assumption.
Qed.

Lemma emits_or_fail (S : Event -> Prop) (c k : M P bool) :
  emits S c -> emits S k -> emits S (or_fail P c k).
Proof.
  intros Hc Hk. unfold or_fail. apply emits_bind; [assumption|].
  intros [|]; [assumption|apply emits_ret].
Qed.

Lemma emits_weaken {A : Type} (S S' : Event -> Prop) (m : M P A) :
  (forall e, S e -> S' e) -> emits S m -> emits S' m.
Proof.
  intros HS Hm w. destruct (Hm w) as (l & E & F).
  exists l. split; [assumption|]. eapply Forall_impl; eassumption.
Qed.

Lemma emits_transmit (S : Event -> Prop) (addr : Z) (bytes : list Z) (stop : bool) :
  S (EvTx addr bytes stop) -> emits S (transmit P addr bytes stop).
Proof.
  intros H w. unfold transmit.
  destruct (wire_transmit P addr bytes stop (bus w)) as [st b]. simpl.
  exists [EvTx addr bytes stop]. split; [reflexivity|]. constructor; [assumption|constructor].
Qed.

Lemma emits_request (S : Event -> Prop) (timeout addr len : Z) :
  S (EvRx addr len timeout) -> emits S (request P timeout addr len).
Proof.
  intros H w. unfold request.
  destruct (wire_request P addr len timeout (bus w)) as [rx b]. simpl.
  exists [EvRx addr len timeout]. split; [reflexivity|]. constructor; [assumption|constructor].
Qed.

Lemma emits_delay (S : Event -> Prop) (ms : Z) :
  S (EvDelay ms) -> emits S (delay P ms).
Proof.
  intros H w. unfold delay. simpl.
  exists [EvDelay ms]. split; [reflexivity|]. constructor; [assumption|constructor].
Qed.

Lemma emits_millis (S : Event -> Prop) : S EvMillis -> emits S (millis P).
Proof.
  intros H w. unfold millis. destruct (wire_millis P (bus w)) as [t b]. simpl.
  exists [EvMillis]. split; [reflexivity|]. constructor; [assumption|constructor].
Qed.

(** One step through a computation whose traffic is being bounded. *)
Ltac traffic_step :=
  match goal with
  | |- emits _ (ret _) => apply emits_ret
  | |- emits _ (bind _ _) => apply emits_bind; [|intros ?]
  | |- emits _ (or_fail _ _ _) => apply emits_or_fail
  | |- emits _ (transmit _ _ _ _) => apply emits_transmit; simpl; auto
  | |- emits _ (request _ _ _ _) => apply emits_request; simpl; auto
  | |- emits _ (delay _ _) => apply emits_delay; simpl; auto
  | |- emits _ (millis _) => apply emits_millis; simpl; auto
  | |- emits _ (if ?b then _ else _) => destruct b
  | |- emits _ (let '(_, _) := ?x in _) => destruct x
  | |- emits _ (match ?x with _ => _ end) => destruct x
  end.

Ltac traffic := repeat (first [assumption | traffic_step]).

(** A register write is a single transmission. *)
Lemma emits_safe_write_tx (S : Event -> Prop) (addr reg val : Z) :
  S (EvTx addr [reg; val] true) -> emits S (i2c_safe_write P addr reg val).
Proof. intros H. unfold i2c_safe_write. traffic. Qed.

Lemma emits_device_exists (addr : Z) (chip_id : option Z) (reg : Z) :
  emits (on_addr (eq addr)) (i2c_device_exists P addr chip_id reg).
Proof. unfold i2c_device_exists. traffic. Qed.

Lemma emits_safe_write (addr reg val : Z) :
  emits (on_addr (eq addr)) (i2c_safe_write P addr reg val).
Proof. unfold i2c_safe_write. traffic. Qed.

Lemma emits_safe_read (addr reg : Z) (buf : list Z) (len : Z) :
  emits (on_addr (eq addr)) (i2c_safe_read P addr reg buf len).
Proof.
  unfold i2c_safe_read. pose proof (emits_device_exists addr None 0). traffic.
Qed.

Lemma emits_init_primary (addr : Z) :
  emits (on_addr (eq addr)) (init_bmm150_primary P addr).
Proof.
  unfold init_bmm150_primary.
  pose proof (emits_safe_write addr). pose proof (emits_safe_read addr).
  repeat (first [solve [auto] | traffic_step]).
Qed.

Lemma emits_wait_mag_sync (n : nat) (bmi : Z) :
  emits (on_addr (eq bmi)) (wait_mag_sync P n bmi).
Proof.
  pose proof (emits_safe_read bmi).
  induction n as [|n IH]; simpl;
    repeat (first [solve [auto] | traffic_step]).
Qed.

Lemma emits_poll_drdy (n : nat) (bmi : Z) :
  emits (on_addr (eq bmi)) (poll_drdy P n bmi).
Proof.
  pose proof (emits_safe_read bmi).
  induction n as [|n IH]; simpl;
    repeat (first [solve [auto] | traffic_step]).
Qed.

Lemma emits_init_secondary (bmi phys_addr : Z) :
  emits (on_addr (eq bmi)) (init_bmm150_secondary P bmi phys_addr).
Proof.
  unfold init_bmm150_secondary.
  pose proof (emits_safe_write bmi). pose proof (emits_safe_read bmi).
  pose proof (emits_device_exists bmi). pose proof (emits_wait_mag_sync 200 bmi).
  repeat (first [solve [auto] | traffic_step]).
Qed.

Lemma emits_send_forced (bmi addr : Z) :
  emits (on_addr (eq bmi)) (send_forced_mode_secondary P bmi addr).
Proof.
  unfold send_forced_mode_secondary.
  pose proof (emits_safe_write bmi). pose proof (emits_poll_drdy 50 bmi).
  repeat (first [solve [auto] | traffic_step]).
Qed.

Lemma emits_first_match (S : Event -> Prop) (f : Z -> M P bool) (addrs : list Z) :
  (forall a, In a addrs -> emits S (f a)) -> emits S (first_match P f addrs).
Proof.
  induction addrs as [|a rest IH]; intros H; simpl.
  - apply emits_ret.
  - apply emits_bind; [apply H; left; reflexivity|].
    intros [|]; [apply emits_ret|]. apply IH. intros b Hb. apply H. right. assumption.
Qed.

Lemma emits_probe_bmi160 (addr : Z) :
  emits (on_addr (eq addr)) (probe_bmi160 P addr).
Proof.
  unfold probe_bmi160. pose proof (emits_device_exists addr).
  repeat (first [solve [auto] | traffic_step]).
Qed.

Lemma emits_probe_bmm150 (addr : Z) :
  emits (on_addr (eq addr)) (probe_bmm150 P addr).
Proof.
  unfold probe_bmm150. pose proof (emits_device_exists addr).
  repeat (first [solve [auto] | traffic_step]).
Qed.

Lemma emits_configure (d : Driver P) :
  emits (on_addr (eq (bmi160_addr d))) (configure_bmi160 P d).
Proof.
  unfold configure_bmi160, write_then_delay.
  pose proof (emits_safe_write (bmi160_addr d)).
  repeat (first [solve [auto] | traffic_step]).
Qed.

End Traffic.

(** ** Rate limiter *)

Section RateFacts.

Context (P : Platform).

Lemma mean_defined (sum n : Z) : 0 < n -> mean sum n = Some (to_int16 (u32 sum / n)).
Proof. intros H. unfold mean. destruct (Z.eqb_spec n 0); [lia|reflexivity]. Qed.

(** With at least one sample none of the ten divisions is by zero. *)
Lemma averages_defined (r : RateState) :
  0 < samples r -> exists avg, averages r = Some avg.
Proof.
  intros H. unfold averages, mean3.
  destruct (acc_sum r) as [[a1 a2] a3], (gyr_sum r) as [[g1 g2] g3],
           (mag_sum r) as [[m1 m2] m3].
  rewrite !mean_defined by assumption. eexists. reflexivity.
Qed.

(** For a sum that is not negative the unsigned division is the truncated
    one. *)
Lemma mean_of_nonneg_sum (sum n : Z) :
  0 <= sum < 2147483648 -> 0 < n ->
  mean sum n = Some (to_int16 (Z.quot sum n)).
Proof.
  intros Hs Hn. rewrite mean_defined by assumption.
  unfold u32. rewrite Z.mod_small by lia.
  rewrite Z.quot_div_nonneg by lia. reflexivity.
Qed.

(** For a negative sum the dividend is the sum plus 2^32. *)
Lemma mean_of_negative_sum (sum n : Z) :
  -2147483648 <= sum < 0 -> 0 < n ->
  mean sum n = Some (to_int16 ((sum + 4294967296) / n)).
Proof.
  intros Hs Hn. rewrite mean_defined by assumption.
  unfold u32. replace sum with ((sum + 4294967296) + (-1) * 4294967296) at 1 by lia.
  rewrite Z.mod_add by lia. rewrite Z.mod_small by lia. reflexivity.
Qed.

(** What a call does on each side of its interval test. *)
Lemma IMU_readDataWithFrequency_cases (d : Driver P) (out : Sample)
    (f : float P) (w : World P) :
  let w2 := snd (millis P (snd (push_native_rates P d w))) in
  let t := clock_reading P d w in
  let r := rate d in
  IMU_readDataWithFrequency P d out f w =
    if interval_elapsed P d f w then
      if 0 <? samples r then
        match averages r with
        | Some avg =>
            (Some (set_rate P (mkRate t zero3 zero3 zero3 0 0) d, avg), w2)
        | None => (None, w2)
        end
      else
        (Some (set_rate P (mkRate t (acc_sum r) (gyr_sum r) (mag_sum r)
                                  (rhall_sum r) (samples r)) d, out), w2)
    else
      (Some (set_rate P (accumulate r (fst (IMU_readData P d w2))) d, out),
       snd (IMU_readData P d w2)).
Proof.
  unfold IMU_readDataWithFrequency, interval_elapsed, clock_reading, bind, ret.
  destruct (push_native_rates P d w) as [[] w1]. simpl.
  destruct (millis P w1) as [t w2]. simpl.
  destruct (output_interval P (mag_mode d) f <=? u32 (t - last_time (rate d))).
  - destruct (0 <? samples (rate d)); [|reflexivity].
    destruct (averages (rate d)); reflexivity.
  - destruct (IMU_readData P d w2) as [s w3]. reflexivity.
Qed.

(** No call ends in a division by zero. *)
Lemma IMU_readDataWithFrequency_total (d : Driver P) (out : Sample)
    (f : float P) (w : World P) :
  exists d' out', fst (IMU_readDataWithFrequency P d out f w) = Some (d', out').
Proof.
  rewrite IMU_readDataWithFrequency_cases.
  destruct (interval_elapsed P d f w); [|do 2 eexists; reflexivity].
  destruct (Z.ltb_spec 0 (samples (rate d))) as [Hpos|Hle];
    [|do 2 eexists; reflexivity].
  destruct (averages_defined _ Hpos) as [avg ->]. do 2 eexists. reflexivity.
Qed.

(** C5.  A call never divides by zero, and when the interval has not
    elapsed, or has elapsed with a sample count of zero, the caller's
    outputs are returned as they were passed in; in the second case the
    accumulator is left as it was too. *)
Theorem IMU_readDataWithFrequency_guarded (d : Driver P) (out : Sample)
    (f : float P) (w : World P) :
  exists d' out',
    fst (IMU_readDataWithFrequency P d out f w) = Some (d', out') /\
    (interval_elapsed P d f w = false -> out' = out) /\
    (interval_elapsed P d f w = true -> samples (rate d) = 0 ->
     out' = out /\ same_accumulator (rate d) (rate d')).
Proof.
  rewrite IMU_readDataWithFrequency_cases.
  destruct (interval_elapsed P d f w).
  - destruct (Z.ltb_spec 0 (samples (rate d))) as [Hpos|Hle].
    + destruct (averages_defined _ Hpos) as [avg ->]. simpl.
      do 2 eexists. split; [reflexivity|]. split; [discriminate|]. lia.
    + simpl. do 2 eexists. split; [reflexivity|]. split; [discriminate|].
      intros _ _. split; [reflexivity|]. unfold same_accumulator. simpl. tauto.
  - simpl. do 2 eexists. split; [reflexivity|]. split; [reflexivity|discriminate].
Qed.

(** Nothing in a log segment without receive events is a burst read. *)
Lemma no_burst_reads (l : list Event) :
  Forall (fun e => is_burst_read e = false) l -> burst_reads l = 0%nat.
Proof.
  unfold burst_reads. induction 1 as [|e l He Hl IH]; simpl; [reflexivity|].
  rewrite He. assumption.
Qed.

(** The traffic of a call up to its interval test: register writes and
    the clock read. *)
Lemma rate_push_traffic (d : Driver P) :
  emits (fun e => is_burst_read e = false)
        (bind (push_native_rates P d) (fun _ => millis P)).
Proof.
  apply emits_bind.
  - unfold push_native_rates.
    destruct (negb (bmi160_addr d =? 0)); [|apply emits_ret].
    apply emits_bind; [apply emits_safe_write_tx; reflexivity|]. intros _.
    apply emits_bind; [apply emits_safe_write_tx; reflexivity|]. intros _.
    apply emits_ret.
  - intros _. apply emits_millis. reflexivity.
Qed.

(** C4, as the driver orders the steps.  A call first writes the two
    output rates and reads the clock.  If the interval has elapsed the
    call is over as far as the bus is concerned: no [IMU_readData] is
    made, and the traffic of the call holds no burst read.  Otherwise
    exactly one [IMU_readData] follows, its sample is folded into the
    accumulator and the outputs are untouched. *)
Theorem IMU_readDataWithFrequency_checks_first (d : Driver P) (out : Sample)
    (f : float P) (w : World P) :
  let w2 := snd (millis P (snd (push_native_rates P d w))) in
  if interval_elapsed P d f w then
    snd (IMU_readDataWithFrequency P d out f w) = w2 /\
    exists l, log w2 = l ++ log w /\ burst_reads l = 0%nat
  else
    IMU_readDataWithFrequency P d out f w =
      (Some (set_rate P (accumulate (rate d) (fst (IMU_readData P d w2))) d, out),
       snd (IMU_readData P d w2)).
Proof.
  rewrite IMU_readDataWithFrequency_cases.
  destruct (interval_elapsed P d f w); [|reflexivity].
  split.
  - destruct (0 <? samples (rate d)); [|reflexivity].
    destruct (averages (rate d)); reflexivity.
  - destruct (rate_push_traffic d w) as (l & L & F).
    exists l. split; [|apply no_burst_reads; assumption].
    revert L. unfold bind. destruct (push_native_rates P d w) as [[] w1].
    simpl. intros L. exact L.
Qed.

(** A flush hands out the averages and empties the accumulator. *)
Lemma flush_empties_accumulator (d : Driver P) (out : Sample) (f : float P)
    (w : World P) :
  interval_elapsed P d f w = true -> 0 < samples (rate d) ->
  exists d', fst (IMU_readDataWithFrequency P d out f w)
             = Some (d', match averages (rate d) with
                         | Some avg => avg
                         | None => out
                         end) /\
             accum_empty (rate d').
Proof.
  intros He Hs. rewrite IMU_readDataWithFrequency_cases, He.
  destruct (Z.ltb_spec 0 (samples (rate d))) as [_|]; [|lia].
  destruct (averages_defined _ Hs) as [avg ->]. simpl.
  eexists. split; [reflexivity|]. unfold accum_empty. simpl. tauto.
Qed.

End RateFacts.

(** C4, as the claim orders the steps, fails on a flush.  After three
    samples and a full interval the next call flushes; the driver's bus
    traffic for that call is the two rate writes and the clock read, with
    no burst read, where the design order reads one more sample first. *)
Lemma flush_call_reads_nothing :
  match Sim.three_samples with
  | (Some (d, out), w) =>
      let w0 := Sim.interval_later w in
      samples (rate d) = 3 /\
      interval_elapsed Sim.P_bmi d 50%Q w0 = true /\
      log (snd (IMU_readDataWithFrequency Sim.P_bmi d out 50%Q w0))
        = [EvMillis; EvTx 0x68 [BMI160_GYR_CONF; 0x0C] true;
           EvTx 0x68 [BMI160_ACC_CONF; 0x0C] true] /\
      burst_reads (log (snd (IMU_readDataWithFrequency Sim.P_bmi d out 50%Q w0)))
        = 0%nat /\
      burst_reads (log (snd (readAtRate_design Sim.P_bmi d out 50%Q w0)))
        = 1%nat
  | _ => False
  end.
Proof. vm_compute. repeat split. Qed.

(** C3 at three samples of -3.  The accumulated sum is -9 and the count 3;
    the flush divides 2^32 - 9 by 3 and keeps the low 16 bits, 21842,
    where the truncated mean is -3.  The accumulator is empty afterwards. *)
Theorem flush_of_negative_sum :
  match Sim.three_samples with
  | (Some (d, out), w) =>
      s_acc (fst (IMU_readData Sim.P_bmi d w)) = (-3, 0, 0) /\
      acc_sum (rate d) = (-9, 0, 0) /\ samples (rate d) = 3 /\
      match fst (IMU_readDataWithFrequency Sim.P_bmi d out 50%Q
                   (Sim.interval_later w)) with
      | Some (d', out') =>
          s_acc out' = (21842, 0, 0) /\
          trunc_mean [-3; -3; -3] = -3 /\
          accum_empty (rate d')
      | None => False
      end
  | _ => False
  end.
Proof. vm_compute. repeat split. Qed.

(** ** Discovery *)

Section Discovery.

Context (P : Platform).

Lemma first_match_in (f : Z -> M P bool) (addrs : list Z) (w w' : World P) (a : Z) :
  first_match P f addrs w = (Some a, w') -> In a addrs.
Proof.
  revert w. induction addrs as [|x rest IH]; intros w; simpl.
  - unfold ret. discriminate.
  - unfold bind. destruct (f x w) as [[|] w1].
    + unfold ret. intros H. injection H as <- _. left. reflexivity.
    + intros H. right. eapply IH. eassumption.
Qed.

Lemma addr_range_bounds (lo : Z) (n : nat) (a : Z) :
  In a (addr_range lo n) <-> lo <= a < lo + Z.of_nat n.
Proof.
  unfold addr_range. rewrite in_map_iff. split.
  - intros (i & <- & Hi). apply in_seq in Hi. lia.
  - intros H. exists (Z.to_nat (a - lo)). split; [lia|]. apply in_seq. lia.
Qed.

Lemma configure_result (d : Driver P) (w : World P) :
  fst (configure_bmi160 P d w) = update_conversion_factors P d.
Proof.
  unfold configure_bmi160, write_then_delay, bind, ret.
  repeat match goal with
         | |- context [match ?x with (_, _) => _ end] => destruct x; simpl
         | |- context [if ?b then _ else _] => destruct b; simpl
         end; reflexivity.
Qed.

Lemma update_conversion_factors_frame (d : Driver P) :
  topology P (update_conversion_factors P d) = topology P d /\
  config (update_conversion_factors P d) = config d /\
  rate (update_conversion_factors P d) = rate d.
Proof. repeat split. Qed.

(** The identity probe opens with a transmission of the identity register
    to the probed address. *)
Lemma probe_bmm150_log (a : Z) (w : World P) :
  exists l, log (snd (probe_bmm150 P a w)) = l ++ sweep_probe a :: log w.
Proof.
  unfold probe_bmm150, i2c_device_exists, bind, ret, sweep_probe.
  destruct (transmit P a [BMM150_CHIP_ID] true w) as [st w1] eqn:E1.
  assert (L1 : log w1 = EvTx a [BMM150_CHIP_ID] true :: log w).
  { revert E1. unfold transmit.
    destruct (wire_transmit P a [BMM150_CHIP_ID] true (bus w)).
    intros H. injection H as _ <-. reflexivity. }
  destruct (negb (st =? 0)); simpl; [exists []; assumption|].
  destruct (emits_transmit P (fun _ => True) a [BMM150_CHIP_ID] false I w1)
    as (l2 & E2 & _).
  destruct (transmit P a [BMM150_CHIP_ID] false w1) as [st2 w2]. simpl in E2.
  destruct (negb (st2 =? 0)); simpl;
    [exists l2; rewrite E2, L1; reflexivity|].
  destruct (emits_request P (fun _ => True) 5 a 1 I w2) as (l3 & E3 & _).
  destruct (request P 5 a 1 w2) as [rx w3]. simpl in E3.
  exists (l3 ++ l2).
  destruct (Z.of_nat (length rx) =? 1); simpl;
    rewrite E3, E2, L1, <- app_assoc; reflexivity.
Qed.

(** The sweep probes its first address, and every address if it finds
    nothing. *)
Lemma sweep_log (addrs : list Z) (w : World P) :
  exists l,
    log (snd (first_match P (probe_bmm150 P) addrs w)) = l ++ log w /\
    (forall a rest, addrs = a :: rest -> In (sweep_probe a) l) /\
    (fst (first_match P (probe_bmm150 P) addrs w) = None ->
     forall a, In a addrs -> In (sweep_probe a) l).
Proof.
  revert w. induction addrs as [|x rest IH]; intros w; simpl.
  - exists []. repeat split; [discriminate|intros _ a []].
  - unfold bind. destruct (probe_bmm150_log x w) as (l1 & E1).
    destruct (probe_bmm150 P x w) as [hit w1]. simpl in E1.
    destruct hit.
    + exists (l1 ++ [sweep_probe x]). simpl. split.
      * rewrite E1, <- app_assoc. reflexivity.
      * split; [|discriminate].
        intros a r H. injection H as <- _. apply in_or_app. right. left. reflexivity.
    + destruct (IH w1) as (l2 & E2 & _ & H2).
      exists (l2 ++ l1 ++ [sweep_probe x]). split.
      * rewrite E2, E1, <- !app_assoc. reflexivity.
      * split.
        -- intros a r H. injection H as <- _.
           apply in_or_app. right. apply in_or_app. right. left. reflexivity.
        -- intros Hn a [<-|Ha].
           ++ apply in_or_app. right. apply in_or_app. right. left. reflexivity.
           ++ apply in_or_app. left. apply H2; assumption.
Qed.

Local Abbreviation nonzero := (fun x : Z => x <> 0).

Lemma emits_nonzero {A : Type} (a : Z) (m : M P A) :
  a <> 0 -> emits (on_addr (eq a)) m -> emits (on_addr nonzero) m.
Proof.
  intros Ha. apply emits_weaken. intros [x ? ?|x ? ?| |]; simpl; intros; subst; auto.
Qed.

Lemma emits_first_match_nonzero (f : Z -> M P bool) (addrs : list Z) :
  (forall a, emits (on_addr (eq a)) (f a)) ->
  (forall a, In a addrs -> a <> 0) ->
  emits (on_addr nonzero) (first_match P f addrs).
Proof.
  intros Hf Hnz. apply emits_first_match. intros a Ha.
  apply emits_nonzero with a; auto.
Qed.

Lemma direct_range_nonzero (a : Z) : In a (addr_range 0x10 4) -> a <> 0.
Proof. intros H. apply addr_range_bounds in H. lia. Qed.

(** Steps 1 and 2 record the matching candidate and talk to the two
    candidate addresses only. *)
Lemma find_primary_outcome (d : Driver P) (w : World P) :
  bmi160_addr d = 0 ->
  exists b d' w' l,
    find_primary P d w = ((b, d'), w') /\ log w' = l ++ log w /\
    Forall (on_addr nonzero) l /\
    (forall a, b = Some a -> a = 0x68 \/ a = 0x69) /\
    bmi160_addr d' = match b with Some a => a | None => 0 end /\
    bmm150_addr d' = bmm150_addr d /\ mag_mode d' = mag_mode d /\
    initialized d' = initialized d.
Proof.
  intros Hb. unfold find_primary, bind, ret.
  assert (T1 : emits (on_addr nonzero)
                 (first_match P (probe_bmi160 P) [BMI160_ADDR_68; BMI160_ADDR_69])).
  { apply emits_first_match_nonzero; [apply emits_probe_bmi160|].
    intros a [<-|[<-|[]]]; discriminate. }
  destruct (first_match P (probe_bmi160 P) _ w) as [b w1] eqn:E1.
  destruct (T1 w) as (l1 & L1 & F1). rewrite E1 in L1. simpl in L1.
  destruct b as [a|].
  - assert (Ha : a = 0x68 \/ a = 0x69).
    { apply first_match_in in E1. destruct E1 as [<-|[<-|[]]]; auto. }
    assert (Hnz : a <> 0) by lia.
    cbn [bmi160_addr set_bmi160_addr]. destruct (Z.eqb_spec a 0) as [|_]; [contradiction|]. cbn [negb].
    pose proof (configure_result (set_bmi160_addr P a d) w1) as Hc.
    destruct (emits_nonzero a _ Hnz (emits_configure P (set_bmi160_addr P a d)) w1)
      as (l2 & L2 & F2).
    destruct (configure_bmi160 P (set_bmi160_addr P a d) w1) as [d2 w2].
    simpl in Hc, L2. subst d2.
    exists (Some a), (update_conversion_factors P (set_bmi160_addr P a d)), w2, (l2 ++ l1).
    split; [reflexivity|]. split; [rewrite L2, L1; apply app_assoc|].
    split; [apply Forall_app; split; assumption|].
    split; [intros a0 H; injection H as <-; assumption|].
    repeat split.
  - rewrite Hb. simpl.
    exists None, d, w1, l1. repeat split; try assumption. discriminate.
Qed.

Lemma Outcome_after (t : Tiers) (d : Driver P) (l l0 : list Event) :
  Forall (on_addr nonzero) l0 -> Outcome t d l -> Outcome t d (l ++ l0).
Proof.
  intros F0 [a|  |a|a| ]; intros.
  - eapply FoundDirect; simpl; eauto; try reflexivity. apply Forall_app; split; assumption.
  - eapply NothingWithoutPrimary; simpl; eauto; try reflexivity. apply Forall_app; split; assumption.
  - eapply FoundBridged; simpl; eauto; try reflexivity. apply Forall_app; split; assumption.
  - eapply FoundBySweep; simpl; eauto; try reflexivity. apply in_or_app. left. assumption.
  - eapply NothingAfterSweep; simpl; eauto; try reflexivity. intros. apply in_or_app. left. auto.
Qed.

(** Steps 3 and 4 end in one of the five outcomes. *)
Lemma find_magnetometer_outcome (b : option Z) (d : Driver P) (w : World P) :
  bmm150_addr d = 0 -> mag_mode d = NONE ->
  bmi160_addr d = match b with Some a => a | None => 0 end ->
  (forall a, b = Some a -> a <> 0) ->
  exists t d' w' l,
    find_magnetometer P b d w = ((t, d'), w') /\ log w' = l ++ log w /\
    t_bmi t = b /\
    bmi160_addr d' = bmi160_addr d /\ initialized d' = initialized d /\
    Outcome t d' l.
Proof.
  intros Hm Hmode Hb Hnz. unfold find_magnetometer, bind, ret.
  assert (T3 : emits (on_addr nonzero)
                 (first_match P (init_bmm150_primary P) (addr_range 0x10 4))).
  { apply emits_first_match_nonzero; [apply emits_init_primary|].
    apply direct_range_nonzero. }
  destruct (first_match P (init_bmm150_primary P) _ w) as [t1 w1] eqn:E1.
  destruct (T3 w) as (l1 & L1 & F1). rewrite E1 in L1. simpl in L1.
  destruct t1 as [a1|].
  - (* direct *)
    assert (Ha1 : 0x10 <= a1 <= 0x13).
    { apply first_match_in, addr_range_bounds in E1. lia. }
    simpl. destruct (Z.eqb_spec a1 0) as [|_]; [lia|]. rewrite andb_false_r.
    do 4 eexists. split; [reflexivity|]. split; [exact L1|].
    repeat split. eapply FoundDirect; simpl; eauto; try reflexivity.
  - cbn [found_magnetometer]. rewrite Hm. cbn [Z.eqb]. rewrite andb_true_r.
    destruct (Z.eqb_spec (bmi160_addr d) 0) as [Hz|Hz]; cbn [negb andb].
    + do 4 eexists. split; [reflexivity|]. split; [exact L1|].
      repeat split. eapply NothingWithoutPrimary; simpl; eauto; try reflexivity.
      destruct b as [a|]; [|reflexivity]. specialize (Hnz a eq_refl). congruence.
    + assert (Hbn : b <> None) by (intros ->; contradiction).
      assert (T4 : emits (on_addr nonzero)
                     (first_match P (init_bmm150_secondary P (bmi160_addr d))
                                  (addr_range 0x10 4))).
      { apply emits_first_match. intros a _.
        apply emits_nonzero with (bmi160_addr d); [assumption|].
        apply emits_init_secondary. }
      destruct (first_match P (init_bmm150_secondary P (bmi160_addr d)) _ w1)
        as [t2 w2] eqn:E2.
      destruct (T4 w1) as (l2 & L2 & F2). rewrite E2 in L2. simpl in L2.
      destruct t2 as [a2|].
      * assert (Ha2 : 0x10 <= a2 <= 0x13).
        { apply first_match_in, addr_range_bounds in E2. lia. }
        simpl. destruct (Z.eqb_spec a2 0) as [|_]; [lia|].
        do 4 eexists. split; [reflexivity|].
        split; [rewrite L2, L1; apply app_assoc|].
        repeat split. eapply FoundBridged; simpl; eauto; try reflexivity.
        apply Forall_app; split; assumption.
      * cbn [found_magnetometer]. rewrite Hm. cbn [Z.eqb]. cbv iota.
        destruct (sweep_log (addr_range 0x00 128) w2) as (l3 & L3 & H1 & Hall).
        destruct (first_match P (probe_bmm150 P) (addr_range 0x00 128) w2)
          as [t3 w3] eqn:E3.
        cbn [fst snd] in L3, Hall.
        assert (Hp0 : In (sweep_probe 0x00) l3) by (eapply H1; reflexivity).
        exists (mkTiers b None (Some None) (Some t3)),
               (found_magnetometer P t3 PRIMARY d), w3, ((l3 ++ l2) ++ l1).
        split; [reflexivity|].
        split; [rewrite L3, L2, L1, <- !app_assoc; reflexivity|].
        split; [reflexivity|].
        destruct t3 as [a3|]; simpl; (split; [reflexivity|]); (split; [reflexivity|]).
        -- assert (Ha3 : 0x00 <= a3 <= 0x7F).
           { apply first_match_in, addr_range_bounds in E3. lia. }
           eapply FoundBySweep; simpl; eauto; try reflexivity.
           apply in_or_app. left. apply in_or_app. left. assumption.
        -- eapply NothingAfterSweep; simpl; eauto; try reflexivity. intros a Ha.
           apply in_or_app. left. apply in_or_app. left.
           apply Hall; [reflexivity|]. apply addr_range_bounds. lia.
Qed.

Lemma discover_outcome (d : Driver P) (w : World P) :
  fresh_topology d ->
  exists t d' w' l,
    discover P d w = ((t, d'), w') /\ log w' = l ++ log w /\
    initialized d' = false /\
    bmi160_addr d' = match t_bmi t with Some a => a | None => 0 end /\
    (forall a, t_bmi t = Some a -> a = 0x68 \/ a = 0x69) /\
    Outcome t d' l.
Proof.
  intros (Hb & Hm & Hmode & Hinit).
  destruct (find_primary_outcome d w Hb)
    as (b & d1 & w1 & l1 & E1 & L1 & F1 & Hcand & Hb1 & Hm1 & Hmode1 & Hinit1).
  destruct (find_magnetometer_outcome b d1 w1) as
    (t & d2 & w2 & l2 & E2 & L2 & Ht & Hb2 & Hinit2 & Ho); try congruence.
  { intros a Ha. destruct (Hcand a Ha); lia. }
  exists t, d2, w2, (l2 ++ l1).
  unfold discover, bind. rewrite E1. 
  split; [exact E2|]. split; [rewrite L2, L1; apply app_assoc|].
  split; [congruence|]. split; [rewrite Ht; congruence|].
  split; [rewrite Ht; assumption|].
  apply Outcome_after; assumption.
Qed.

(** [IMU_begin] is the discovery followed by the final test of
    [bmm150_addr]. *)
Lemma IMU_begin_unfold (d : Driver P) (w : World P) :
  IMU_begin P d w =
    let '(_, d1, w1) := discover P d w in
    let d' := if bmm150_addr d1 =? 0 then d1 else set_initialized P true d1 in
    ((initialized d', d'), w1).
Proof.
  unfold IMU_begin, bind, ret.
  destruct (discover P d w) as [[t d1] w1]. reflexivity.
Qed.

(** What [IMU_begin] returns after a discovery from fresh topology
    variables: the flag is set exactly when an address other than 0 was
    recorded for the magnetometer. *)
Lemma IMU_begin_outcome (d : Driver P) (w : World P) :
  fresh_topology d ->
  exists t d1 w' l r d',
    discover P d w = ((t, d1), w') /\ IMU_begin P d w = ((r, d'), w') /\
    log w' = l ++ log w /\ Outcome t d' l /\
    topology P d' = (bmi160_addr d1, bmm150_addr d1, mag_mode d1, r) /\
    bmi160_addr d' = match t_bmi t with Some a => a | None => 0 end /\
    r = negb (bmm150_addr d' =? 0) /\
    r = found_at_nonzero t.
Proof.
  intros Hf.
  destruct (discover_outcome d w Hf) as (t & d1 & w1 & l & E & L & Hi & Hb & _ & Ho).
  rewrite IMU_begin_unfold, E.
  exists t, d1, w1, l.
  destruct Ho as [a Hd Ha Hbr Hs Hm Hmode Hl | Hd Hbn Hbr Hs Hm Hmode Hl
                 | a Hd Hbn Hbr Ha Hs Hm Hmode Hl | a Hd Hbn Hbr Hs Ha Hm Hmode Hl
                 | Hd Hbn Hbr Hs Hm Hmode Hl];
    unfold found_at_nonzero; rewrite Hd, ?Hbr, ?Hs, Hm.
  - destruct (Z.eqb_spec a 0) as [|_]; [lia|].
    do 2 eexists. split; [reflexivity|]. split; [reflexivity|]. split; [exact L|].
    split; [eapply FoundDirect; eauto|].
    unfold topology. simpl. rewrite Hm.
    destruct (Z.eqb_spec a 0) as [|_]; [lia|]. repeat split; assumption.
  - simpl. do 2 eexists. split; [reflexivity|]. split; [reflexivity|]. split; [exact L|].
    split; [eapply NothingWithoutPrimary; eauto|].
    unfold topology. rewrite Hm, Hi. simpl. repeat split; assumption.
  - destruct (Z.eqb_spec a 0) as [|_]; [lia|].
    do 2 eexists. split; [reflexivity|]. split; [reflexivity|]. split; [exact L|].
    split; [eapply FoundBridged; eauto|].
    unfold topology. simpl. rewrite Hm.
    destruct (Z.eqb_spec a 0) as [|_]; [lia|]. repeat split; assumption.
  - destruct (Z.eqb_spec a 0) as [Hz|Hz].
    + do 2 eexists. split; [reflexivity|]. split; [reflexivity|]. split; [exact L|].
      split; [eapply FoundBySweep; eauto|].
      unfold topology. rewrite Hm, Hi, Hz. simpl. repeat split; assumption.
    + do 2 eexists. split; [reflexivity|]. split; [reflexivity|]. split; [exact L|].
      split; [eapply FoundBySweep; eauto|].
      unfold topology. simpl. rewrite Hm.
      destruct (Z.eqb_spec a 0) as [|_]; [lia|]. repeat split; assumption.
  - simpl. do 2 eexists. split; [reflexivity|]. split; [reflexivity|]. split; [exact L|].
    split; [eapply NothingAfterSweep; eauto|].
    unfold topology. rewrite Hm, Hi. simpl. repeat split; assumption.
Qed.

Lemma driver_init_fresh : fresh_topology (driver_init P).
Proof. repeat split. Qed.

End Discovery.

(** ** The usable flag and the full-bus sweep *)

Section BeginFacts.

Context (P : Platform).

Local Abbreviation nonzero := (fun x : Z => x <> 0).

Lemma no_probe_of_zero (l : list Event) :
  Forall (on_addr nonzero) l -> ~ In (sweep_probe 0x00) l.
Proof.
  intros F H. apply (proj1 (Forall_forall _ _) F) in H. simpl in H. congruence.
Qed.

(** Whether the sweep was entered can be read off the five outcomes. *)
Lemma Outcome_sweep (t : Tiers) (d : Driver P) (l : list Event) :
  Outcome t d l ->
  (t_sweep t <> None <->
   t_bmi t <> None /\ t_direct t = None /\ t_bridged t = Some None) /\
  (t_sweep t <> None <-> In (sweep_probe 0x00) l).
Proof.
  intros [a Hd Ha Hbr Hs Hm Hmode Hl | Hd Hbn Hbr Hs Hm Hmode Hl
         | a Hd Hbn Hbr Ha Hs Hm Hmode Hl | a Hd Hbn Hbr Hs Ha Hm Hmode Hl
         | Hd Hbn Hbr Hs Hm Hmode Hl];
    rewrite Hs, Hd, Hbr; split; split; intros H0;
    try (destruct H0 as (H1 & H2 & H3));
    try solve [ congruence
              | exfalso; eapply no_probe_of_zero; eassumption
              | repeat split; (assumption || discriminate)
              | discriminate
              | assumption
              | apply Hl; lia ].
Qed.

(** C8.  In a discovery from the initial state the full-bus sweep is
    entered iff the primary chip was found and both the direct and the
    bridged search came back empty; equivalently, iff the identity probe
    of address 0x00, with which the sweep starts, shows in the bus
    traffic.  It is not entered without the primary chip, nor after a
    magnetometer was found directly or behind the primary chip; if it
    finds nothing it has probed all 128 addresses; and a match sets
    PRIMARY mode with the matched address. *)
Theorem full_bus_sweep_condition (w : World P) :
  exists t d1 w' l r d',
    discover P (driver_init P) w = ((t, d1), w') /\
    IMU_begin P (driver_init P) w = ((r, d'), w') /\
    log w' = l ++ log w /\
    (t_sweep t <> None <->
     t_bmi t <> None /\ t_direct t = None /\ t_bridged t = Some None) /\
    (t_sweep t <> None <-> In (sweep_probe 0x00) l) /\
    (t_bmi t <> None <-> bmi160_addr d' <> 0) /\
    (t_bmi t = None -> t_sweep t = None) /\
    (t_direct t <> None -> t_sweep t = None) /\
    (forall a, t_bridged t = Some (Some a) -> t_sweep t = None) /\
    (t_sweep t = Some None ->
     forall a, 0x00 <= a <= 0x7F -> In (sweep_probe a) l) /\
    (forall a, t_sweep t = Some (Some a) ->
     0x00 <= a <= 0x7F /\ mag_mode d' = PRIMARY /\ bmm150_addr d' = a).
Proof.
  destruct (IMU_begin_outcome P (driver_init P) w (driver_init_fresh P))
    as (t & d1 & w' & l & r & d' & E & Eb & L & Ho & _ & Hb & _ & _).
  exists t, d1, w', l, r, d'.
  destruct (Outcome_sweep t d' l Ho) as [S1 S2].
  split; [exact E|]. split; [exact Eb|]. split; [exact L|].
  split; [exact S1|]. split; [exact S2|].
  assert (Hcand : forall a, t_bmi t = Some a -> a <> 0).
  { intros a Ha.
    destruct (discover_outcome P (driver_init P) w (driver_init_fresh P))
      as (t0 & d0 & w0 & l0 & E0 & _ & _ & _ & Hc & _).
    rewrite E in E0. injection E0 as <- _ _. destruct (Hc a Ha); lia. }
  split.
  { rewrite Hb. destruct (t_bmi t) as [a|].
    - specialize (Hcand a eq_refl). split; intros; congruence.
    - split; intros; congruence. }
  destruct Ho as [a Hd Ha Hbr Hs Hm Hmode Hl | Hd Hbn Hbr Hs Hm Hmode Hl
                 | a Hd Hbn Hbr Ha Hs Hm Hmode Hl | a Hd Hbn Hbr Hs Ha Hm Hmode Hl
                 | Hd Hbn Hbr Hs Hm Hmode Hl];
    rewrite Hs, Hd, Hbr.
  - repeat split; intros; try congruence.
  - repeat split; intros; try congruence.
  - repeat split; intros; try congruence.
  - split; [intros; contradiction|]. split; [intros; congruence|].
    split; [intros; congruence|]. split; [intros; congruence|].
    intros a0 H0. injection H0 as <-. repeat split; (assumption || lia).
  - split; [intros; contradiction|]. split; [intros; congruence|].
    split; [intros; congruence|]. split; [intros _; exact Hl|].
    intros; congruence.
Qed.

(** C2, as the driver sets the flag.  After a discovery from the initial
    state the value [IMU_begin] returns is the flag [IMU_isInitialized]
    reports, and it is true iff an address other than 0 was recorded for
    the magnetometer, whatever the primary chip did: with no magnetometer
    found by any tier the flag is false even when the primary chip was
    found, and a magnetometer found without the primary chip makes it
    true. *)
Theorem usable_flag_follows_magnetometer (w : World P) :
  exists t d1 w' r d',
    discover P (driver_init P) w = ((t, d1), w') /\
    IMU_begin P (driver_init P) w = ((r, d'), w') /\
    r = IMU_isInitialized P d' /\
    (r = true <-> bmm150_addr d' <> 0) /\
    r = found_at_nonzero t /\
    (found_by_some_tier t = false -> r = false) /\
    (t_bmi t = None -> found_by_some_tier t = true -> r = true).
Proof.
  destruct (IMU_begin_outcome P (driver_init P) w (driver_init_fresh P))
    as (t & d1 & w' & l & r & d' & E & Eb & L & Ho & Ht & Hb & Hr & Hf).
  exists t, d1, w', r, d'.
  split; [exact E|]. split; [exact Eb|].
  split; [unfold IMU_isInitialized; unfold topology in Ht; congruence|].
  split.
  { rewrite Hr. destruct (Z.eqb_spec (bmm150_addr d') 0); simpl; split;
      intros; congruence. }
  split; [exact Hf|].
  rewrite Hf. unfold found_at_nonzero, found_by_some_tier.
  destruct Ho as [a Hd Ha Hbr Hs Hm Hmode Hl | Hd Hbn Hbr Hs Hm Hmode Hl
                 | a Hd Hbn Hbr Ha Hs Hm Hmode Hl | a Hd Hbn Hbr Hs Ha Hm Hmode Hl
                 | Hd Hbn Hbr Hs Hm Hmode Hl];
    rewrite Hd, ?Hbr, ?Hs; split; intros; try congruence.
  destruct (Z.eqb_spec a 0); [lia|reflexivity].
Qed.

(** The topology variables after [IMU_begin]: what holds of them for
    every bus. *)
Lemma topology_after_begin (d : Driver P) (w : World P) :
  fresh_topology d ->
  let d' := snd (fst (IMU_begin P d w)) in
  (mag_mode d' = SECONDARY -> bmi160_addr d' <> 0) /\
  (initialized d' = true <-> bmm150_addr d' <> 0) /\
  (bmm150_addr d' <> 0 -> mag_mode d' <> NONE).
Proof.
  intros Hf.
  destruct (IMU_begin_outcome P d w Hf)
    as (t & d1 & w' & l & r & d' & E & Eb & L & Ho & Ht & Hb & Hr & _).
  rewrite Eb. simpl.
  assert (Hi : initialized d' = r) by (unfold topology in Ht; congruence).
  assert (Hcand : forall a, t_bmi t = Some a -> a <> 0).
  { intros a Ha.
    destruct (discover_outcome P d w Hf) as (t0 & d0 & w0 & l0 & E0 & _ & _ & _ & Hc & _).
    rewrite E in E0. injection E0 as <- _ _. destruct (Hc a Ha); lia. }
  split; [|split].
  - intros Hs.
    destruct Ho as [a Hd Ha Hbr Hsw Hm Hmode Hl | Hd Hbn Hbr Hsw Hm Hmode Hl
                   | a Hd Hbn Hbr Ha Hsw Hm Hmode Hl | a Hd Hbn Hbr Hsw Ha Hm Hmode Hl
                   | Hd Hbn Hbr Hsw Hm Hmode Hl]; try congruence.
    rewrite Hb. destruct (t_bmi t) as [b|]; [apply Hcand; reflexivity|congruence].
  - rewrite Hi, Hr. destruct (Z.eqb_spec (bmm150_addr d') 0); simpl; split;
      intros; congruence.
  - intros Hnz.
    destruct Ho as [a Hd Ha Hbr Hsw Hm Hmode Hl | Hd Hbn Hbr Hsw Hm Hmode Hl
                   | a Hd Hbn Hbr Ha Hsw Hm Hmode Hl | a Hd Hbn Hbr Hsw Ha Hm Hmode Hl
                   | Hd Hbn Hbr Hsw Hm Hmode Hl]; congruence.
Qed.

End BeginFacts.

(** C2 as stated fails with only the primary chip on the bus: the chip is
    found at 0x68 and configured, no magnetometer is found, and
    [IMU_begin] returns false. *)
Lemma primary_alone_not_usable :
  let res := fst (IMU_begin Sim.P_bmi (driver_init Sim.P_bmi)
                    (Sim.world0 Sim.bus_bmi_only)) in
  bmi160_addr (snd res) = 0x68 /\ mag_mode (snd res) = NONE /\
  fst res = false /\ IMU_isInitialized Sim.P_bmi (snd res) = false.
Proof. vm_compute. repeat split. Qed.

(** C1 at a bus whose address 0x00 answers the identity probe.  The
    primary chip is found, the direct and the bridged search fail, and
    the sweep matches at its first address: the driver records PRIMARY
    mode with address 0, and since 0 is also how it writes "no
    magnetometer", [IMU_begin] returns false for a magnetometer it
    found. *)
Theorem begin_false_for_match_at_zero :
  let P := Sim.platform Sim.bus_sweep_00 in
  let t := fst (fst (discover P (driver_init P) (Sim.world0 Sim.bus_sweep_00))) in
  let res := fst (IMU_begin P (driver_init P) (Sim.world0 Sim.bus_sweep_00)) in
  t = mkTiers (Some 0x68) None (Some None) (Some (Some 0x00)) /\
  found_by_some_tier t = true /\
  IMU_getMagMode P (snd res) = PRIMARY /\
  fst res = false.
Proof. vm_compute. repeat split. Qed.

(** C10 at the same bus.  After [IMU_begin] the mode is PRIMARY while
    [bmm150_addr] is 0 and [initialized] is false, so "mode other than
    NONE iff address other than 0" does not hold of the state; the next
    [IMU_readData] directs its forced-mode read at address 0. *)
Theorem topology_inconsistent_for_match_at_zero :
  let P := Sim.platform Sim.bus_sweep_00 in
  let res := IMU_begin P (driver_init P) (Sim.world0 Sim.bus_sweep_00) in
  let d := snd (fst res) in
  mag_mode d = PRIMARY /\ bmm150_addr d = 0 /\ initialized d = false /\
  bmi160_addr d = 0x68 /\
  s_mag (fst (IMU_readData P d (snd res))) = (2, 4, 4).
Proof. vm_compute. repeat split. Qed.


(** ** Conversion factors and the frame of the public operations *)

Section CallFacts.

Context (P : Platform).

Lemma accel_table_lookup (code : Z) (current : float P) :
  valid_accel_range code ->
  table_lookup P accel_range_table code = Some (acc_lsb_for P code current).
Proof. intros [->|[->|[->| ->]]]; reflexivity. Qed.

Lemma gyro_table_lookup (code : Z) (current : float P) :
  valid_gyro_range code ->
  table_lookup P gyro_range_table code = Some (gyr_lsb_for P code current).
Proof.
  unfold valid_gyro_range. intros H.
  assert (E : code = 0 \/ code = 1 \/ code = 2 \/ code = 3 \/ code = 4) by lia.
  destruct E as [->|[->|[->|[->| ->]]]]; reflexivity.
Qed.

Lemma accel_table_valid (code : Z) (v : float P) :
  table_lookup P accel_range_table code = Some v -> valid_accel_range code.
Proof.
  unfold valid_accel_range, accel_range_table. cbn [table_lookup].
  repeat match goal with
         | |- context [?k =? code] => destruct (Z.eqb_spec k code); [subst; tauto|]
         end.
  discriminate.
Qed.

Lemma gyro_table_valid (code : Z) (v : float P) :
  table_lookup P gyro_range_table code = Some v -> valid_gyro_range code.
Proof.
  unfold valid_gyro_range, gyro_range_table. cbn [table_lookup].
  repeat match goal with
         | |- context [?k =? code] => destruct (Z.eqb_spec k code); [subst; lia|]
         end.
  discriminate.
Qed.

(** With valid codes configured, recomputing the factors makes them
    consistent, whatever they were. *)
Lemma update_conversion_factors_consistent (d : Driver P) :
  valid_accel_range (acc_range (config d)) ->
  valid_gyro_range (gyr_range (config d)) ->
  factors_consistent P (update_conversion_factors P d).
Proof.
  intros Ha Hg. unfold factors_consistent, update_conversion_factors. simpl.
  split; [apply accel_table_lookup|apply gyro_table_lookup]; assumption.
Qed.

Lemma factors_consistent_valid (d : Driver P) :
  factors_consistent P d ->
  valid_accel_range (acc_range (config d)) /\
  valid_gyro_range (gyr_range (config d)).
Proof.
  intros [Ha Hg]. split;
    [eapply accel_table_valid|eapply gyro_table_valid]; eassumption.
Qed.

(** The invariant reads the configuration and the two factors only. *)
Lemma factors_consistent_frame (d d' : Driver P) :
  config d' = config d -> ACC_LSB d' = ACC_LSB d -> GYR_LSB d' = GYR_LSB d ->
  factors_consistent P d -> factors_consistent P d'.
Proof. unfold factors_consistent. intros -> -> ->. tauto. Qed.

Ltac run_through :=
  repeat match goal with
         | |- context [match ?x with (_, _) => _ end] => destruct x; simpl
         | |- context [if ?b then _ else _] => destruct b; simpl
         | |- context [match ?o with Some _ => _ | None => _ end] =>
             destruct o; simpl
         end.

Lemma find_magnetometer_frame (b : option Z) (d : Driver P) (w : World P) :
  let d' := snd (fst (find_magnetometer P b d w)) in
  config d' = config d /\ ACC_LSB d' = ACC_LSB d /\ GYR_LSB d' = GYR_LSB d /\
  rate d' = rate d.
Proof.
  unfold find_magnetometer, bind, ret, found_magnetometer.
  run_through; repeat split.
Qed.

Lemma find_primary_consistent (d : Driver P) (w : World P) :
  factors_consistent P d ->
  factors_consistent P (snd (fst (find_primary P d w))).
Proof.
  intros Hc. destruct (factors_consistent_valid d Hc) as [Ha Hg].
  unfold find_primary, bind, ret.
  destruct (first_match P (probe_bmi160 P) _ w) as [b w1].
  set (d1 := match b with Some a => set_bmi160_addr P a d | None => d end).
  assert (C1 : config d1 = config d) by (subst d1; destruct b; reflexivity).
  assert (Hc1 : factors_consistent P d1).
  { apply factors_consistent_frame with d; subst d1; destruct b; auto. }
  destruct (negb (bmi160_addr d1 =? 0)).
  - pose proof (configure_result P d1 w1) as E.
    destruct (configure_bmi160 P d1 w1) as [d2 w2]. simpl in E |- *. subst d2.
    apply update_conversion_factors_consistent; rewrite C1; assumption.
  - simpl. assumption.
Qed.

Lemma IMU_begin_consistent (d : Driver P) (w : World P) :
  factors_consistent P d ->
  factors_consistent P (snd (fst (IMU_begin P d w))).
Proof.
  intros Hc. rewrite IMU_begin_unfold. unfold discover, bind.
  pose proof (find_primary_consistent d w Hc) as H1.
  destruct (find_primary P d w) as [[b d1] w1]. simpl in H1.
  pose proof (find_magnetometer_frame b d1 w1) as (F1 & F2 & F3 & _).
  destruct (find_magnetometer P b d1 w1) as [[t d2] w2]. simpl in *.
  apply factors_consistent_frame with d1; try assumption;
    destruct (bmm150_addr d2 =? 0); assumption.
Qed.

(** The rate limiter changes nothing of the driver state but its own
    statics. *)
Lemma IMU_readDataWithFrequency_frame (d d' : Driver P) (out out' : Sample)
    (f : float P) (w : World P) :
  fst (IMU_readDataWithFrequency P d out f w) = Some (d', out') ->
  exists r, d' = set_rate P r d.
Proof.
  rewrite IMU_readDataWithFrequency_cases.
  destruct (interval_elapsed P d f w).
  - destruct (0 <? samples (rate d)).
    + destruct (averages (rate d)); simpl; [|discriminate].
      intros H. injection H as <- _. eexists. reflexivity.
    + simpl. intros H. injection H as <- _. eexists. reflexivity.
  - simpl. intros H. injection H as <- _. eexists. reflexivity.
Qed.

Lemma IMU_setAccelRange_result (d : Driver P) (range : Z) (w : World P) :
  fst (IMU_setAccelRange P d range w) =
    if bmi160_addr d =? 0 then d
    else update_conversion_factors P
           (set_config P (set_acc_range range (config d)) d).
Proof.
  unfold IMU_setAccelRange, bind, ret.
  destruct (bmi160_addr d =? 0); simpl; [reflexivity|].
  destruct (i2c_safe_write P _ _ _ w). reflexivity.
Qed.

Lemma IMU_setGyroRange_result (d : Driver P) (range : Z) (w : World P) :
  fst (IMU_setGyroRange P d range w) =
    if bmi160_addr d =? 0 then d
    else update_conversion_factors P
           (set_config P (set_gyr_range range (config d)) d).
Proof.
  unfold IMU_setGyroRange, bind, ret.
  destruct (bmi160_addr d =? 0); simpl; [reflexivity|].
  destruct (i2c_safe_write P _ _ _ w). reflexivity.
Qed.

(** Every public operation completes, and with valid range arguments it
    keeps the factors consistent. *)
Lemma run_call_consistent (c : Call P) (d : Driver P) (w : World P) :
  valid_call P c -> factors_consistent P d ->
  exists d' w', run_call P c d w = (Some d', w') /\ factors_consistent P d'.
Proof.
  intros Hv Hc. destruct (factors_consistent_valid d Hc) as [Ha Hg].
  destruct c as [| |out f|range|range| |]; simpl in Hv |- *; unfold bind, ret.
  - pose proof (IMU_begin_consistent d w Hc) as H.
    destruct (IMU_begin P d w) as [[r d'] w']. simpl in H.
    do 2 eexists. split; [reflexivity|assumption].
  - destruct (IMU_readData P d w) as [s w'].
    do 2 eexists. split; [reflexivity|assumption].
  - destruct (IMU_readDataWithFrequency_total P d out f w) as (d' & out' & E).
    destruct (IMU_readDataWithFrequency_frame d d' out out' f w E) as [r ->].
    destruct (IMU_readDataWithFrequency P d out f w) as [res w']. simpl in E. subst res.
    do 2 eexists. split; [reflexivity|].
    apply factors_consistent_frame with d; auto.
  - pose proof (IMU_setAccelRange_result d range w) as E.
    destruct (IMU_setAccelRange P d range w) as [d' w']. simpl in E. subst d'.
    do 2 eexists. split; [reflexivity|].
    destruct (bmi160_addr d =? 0); [assumption|].
    apply update_conversion_factors_consistent; simpl; assumption.
  - pose proof (IMU_setGyroRange_result d range w) as E.
    destruct (IMU_setGyroRange P d range w) as [d' w']. simpl in E. subst d'.
    do 2 eexists. split; [reflexivity|].
    destruct (bmi160_addr d =? 0); [assumption|].
    apply update_conversion_factors_consistent; simpl; assumption.
  - do 2 eexists. split; [reflexivity|assumption].
  - do 2 eexists. split; [reflexivity|assumption].
Qed.

Lemma run_calls_consistent (cs : list (Call P)) (d : Driver P) (w : World P) :
  Forall (valid_call P) cs -> factors_consistent P d ->
  exists d' w', run_calls P cs d w = (Some d', w') /\ factors_consistent P d'.
Proof.
  intros Hv. revert d w.
  induction Hv as [|c cs Hc Hcs IH]; intros d w Hd; simpl.
  - do 2 eexists. split; [reflexivity|assumption].
  - unfold bind.
    destruct (run_call_consistent c d w Hc Hd) as (d1 & w1 & E & H1).
    rewrite E. apply IH. assumption.
Qed.

Lemma driver_init_consistent : factors_consistent P (driver_init P).
Proof. split; reflexivity. Qed.

(** C9.  Starting from the initial state, any sequence of public
    operations whose range arguments are valid codes completes and leaves
    [ACC_LSB] and [GYR_LSB] equal to the table values of the configured
    range codes.  With the primary chip present, [IMU_setAccelRange] and
    [IMU_setGyroRange] called with a valid code return with that code
    configured and its table value as the factor. *)
Theorem conversion_factors_consistent :
  (forall (cs : list (Call P)) (w : World P),
     Forall (valid_call P) cs ->
     exists d w', run_calls P cs (driver_init P) w = (Some d, w') /\
                  factors_consistent P d) /\
  (forall (d : Driver P) (range : Z) (w : World P),
     valid_accel_range range -> bmi160_addr d <> 0 ->
     let d' := fst (IMU_setAccelRange P d range w) in
     acc_range (config d') = range /\
     table_lookup P accel_range_table range = Some (ACC_LSB d')) /\
  (forall (d : Driver P) (range : Z) (w : World P),
     valid_gyro_range range -> bmi160_addr d <> 0 ->
     let d' := fst (IMU_setGyroRange P d range w) in
     gyr_range (config d') = range /\
     table_lookup P gyro_range_table range = Some (GYR_LSB d')).
Proof.
  split; [|split].
  - intros cs w Hv. apply run_calls_consistent; [assumption|].
    apply driver_init_consistent.
  - intros d range w Hv Hb. cbv zeta. rewrite IMU_setAccelRange_result.
    destruct (Z.eqb_spec (bmi160_addr d) 0); [contradiction|].
    split; [reflexivity|]. simpl. apply accel_table_lookup. assumption.
  - intros d range w Hv Hb. cbv zeta. rewrite IMU_setGyroRange_result.
    destruct (Z.eqb_spec (bmi160_addr d) 0); [contradiction|].
    split; [reflexivity|]. simpl. apply gyro_table_lookup. assumption.
Qed.

(** No public operation other than [IMU_begin] changes a topology
    variable. *)
Lemma calls_keep_topology (c : Call P) (d d' : Driver P) (w w' : World P) :
  is_begin P c = false ->
  run_call P c d w = (Some d', w') ->
  topology P d' = topology P d.
Proof.
  destruct c as [| |out f|range|range| |]; simpl; try discriminate;
    intros _; unfold bind, ret.
  - destruct (IMU_readData P d w). intros H. injection H as <- _. reflexivity.
  - destruct (IMU_readDataWithFrequency P d out f w) as [[[d1 o1]|] w1] eqn:E;
      [|discriminate].
    intros H. injection H as <- _.
    destruct (IMU_readDataWithFrequency_frame d d1 out o1 f w) as [r ->];
      [rewrite E; reflexivity|reflexivity].
  - pose proof (IMU_setAccelRange_result d range w) as E.
    destruct (IMU_setAccelRange P d range w) as [d1 w1]. simpl in E.
    intros H. injection H as <- _. subst d1.
    destruct (bmi160_addr d =? 0); reflexivity.
  - pose proof (IMU_setGyroRange_result d range w) as E.
    destruct (IMU_setGyroRange P d range w) as [d1 w1]. simpl in E.
    intros H. injection H as <- _. subst d1.
    destruct (bmi160_addr d =? 0); reflexivity.
  - intros H. injection H as <- _. reflexivity.
  - intros H. injection H as <- _. reflexivity.
Qed.

End CallFacts.

(** ** The theorems at concrete buses *)

(** The forced-mode read of the simulated magnetometer at 0x10, whose data
    window holds the bytes of the example, returns 2, 4, 4 and 1. *)
Lemma read_bmm150_forced_decodes_example :
  fst (read_bmm150_forced Sim.P_mag 0x10 (Sim.world0 Sim.bus_mag_only))
    = ((2, 4, 4), 1).
Proof.
  destruct (read_bmm150_forced_decodes Sim.P_mag 0x10
              (Sim.world0 Sim.bus_mag_only)
              (snd (i2c_safe_write Sim.P_mag 0x10 BMM150_OPMODE BMM150_FORCED_MODE
                      (Sim.world0 Sim.bus_mag_only)))
              (snd (read_bmm150_forced Sim.P_mag 0x10 (Sim.world0 Sim.bus_mag_only)))
              [0x10; 0x00; 0x20; 0x00; 0x08; 0x00; 0x01; 0x00]) as [H _].
  - vm_compute. reflexivity.
  - vm_compute. reflexivity.
  - rewrite H. reflexivity.
Defined.

(** A burst read in SECONDARY mode on the simulated bridge, whose data
    window counts 1, 2, ..., 20. *)
Lemma IMU_readData_burst_decode_example :
  let s := fst (IMU_readData Sim.P_bridged Sim.bridged_driver Sim.bridged_world) in
  s_acc s = (0x100F, 0x1211, 0x1413) /\ s_gyr s = (0x0A09, 0x0C0B, 0x0E0D) /\
  s_mag s = (0x0201, 0x0403, 0x0605) /\ s_rhall s = 0x0807.
Proof.
  pose proof (IMU_readData_burst_decode Sim.P_bridged Sim.bridged_driver
                Sim.bridged_world
                (snd (IMU_readData Sim.P_bridged Sim.bridged_driver Sim.bridged_world))
                (map Z.of_nat (seq 1 20))) as H.
  cbv zeta in H |- *.
  destruct H as (Ha & Hg & Hm).
  - vm_compute. discriminate.
  - vm_compute. reflexivity.
  - change (mag_mode Sim.bridged_driver) with SECONDARY in Hm.
    destruct Hm as [Hm Hr]. rewrite Ha, Hg, Hm, Hr.
    repeat split.
Defined.

(** The first poll after power-on falls inside the interval (the clock
    still reads 0): the outputs come back as passed in. *)
Lemma IMU_readDataWithFrequency_guarded_example :
  exists d',
    fst (IMU_readDataWithFrequency Sim.P_bmi (driver_init Sim.P_bmi)
           (mkSample (1, 2, 3) (4, 5, 6) (7, 8, 9) 10) 50%Q
           (Sim.world0 Sim.bus_bmi_only))
    = Some (d', mkSample (1, 2, 3) (4, 5, 6) (7, 8, 9) 10).
Proof.
  destruct (IMU_readDataWithFrequency_guarded Sim.P_bmi (driver_init Sim.P_bmi)
              (mkSample (1, 2, 3) (4, 5, 6) (7, 8, 9) 10) 50%Q
              (Sim.world0 Sim.bus_bmi_only)) as (d' & out' & E & H & _).
  exists d'. rewrite E. rewrite (H eq_refl). reflexivity.
Defined.

(** A session on the bus with the primary chip: begin, set both ranges,
    read; and the two range setters on the driver state after begin. *)
Lemma conversion_factors_consistent_example :
  (exists d w',
     run_calls Sim.P_bmi
       [CallBegin _; CallSetAccelRange _ 0x0C; CallSetGyroRange _ 0x03;
        CallReadData _]
       (driver_init Sim.P_bmi) (Sim.world0 Sim.bus_bmi_only) = (Some d, w') /\
     factors_consistent Sim.P_bmi d) /\
  table_lookup Sim.P_bmi accel_range_table 0x0C
    = Some (ACC_LSB (fst (IMU_setAccelRange Sim.P_bmi Sim.bmi_driver 0x0C
                            Sim.bmi_world))) /\
  table_lookup Sim.P_bmi gyro_range_table 0x03
    = Some (GYR_LSB (fst (IMU_setGyroRange Sim.P_bmi Sim.bmi_driver 0x03
                            Sim.bmi_world))).
Proof.
  destruct (conversion_factors_consistent Sim.P_bmi) as (H1 & H2 & H3).
  split; [|split].
  - apply H1.
    repeat constructor; simpl; unfold valid_accel_range, valid_gyro_range; lia.
  - apply (H2 Sim.bmi_driver 0x0C Sim.bmi_world).
    + unfold valid_accel_range. lia.
    + vm_compute. discriminate.
  - apply (H3 Sim.bmi_driver 0x03 Sim.bmi_world).
    + unfold valid_gyro_range. lia.
    + vm_compute. discriminate.
Defined.

(** Only the primary chip on the bus: no tier finds a magnetometer and the
    flag is false.  Only a magnetometer on the bus: the flag is true
    without the primary chip. *)
Lemma usable_flag_follows_magnetometer_example :
  fst (fst (IMU_begin Sim.P_bmi (driver_init Sim.P_bmi)
              (Sim.world0 Sim.bus_bmi_only))) = false /\
  fst (fst (IMU_begin Sim.P_mag (driver_init Sim.P_mag)
              (Sim.world0 Sim.bus_mag_only))) = true.
Proof.
  split.
  - destruct (usable_flag_follows_magnetometer Sim.P_bmi
                (Sim.world0 Sim.bus_bmi_only))
      as (t & d1 & w' & r & d' & E & Eb & _ & _ & _ & H & _).
    rewrite Eb. simpl. apply H.
    replace t with (fst (fst (discover Sim.P_bmi (driver_init Sim.P_bmi)
                                (Sim.world0 Sim.bus_bmi_only))))
      by (rewrite E; reflexivity).
    vm_compute. reflexivity.
  - destruct (usable_flag_follows_magnetometer Sim.P_mag
                (Sim.world0 Sim.bus_mag_only))
      as (t & d1 & w' & r & d' & E & Eb & _ & _ & _ & _ & H).
    rewrite Eb. simpl.
    replace t with (fst (fst (discover Sim.P_mag (driver_init Sim.P_mag)
                                (Sim.world0 Sim.bus_mag_only)))) in H
      by (rewrite E; reflexivity).
    apply H; vm_compute; reflexivity.
Defined.

(** A magnetometer at 0x2A, outside the candidate range, next to the
    primary chip: only the sweep finds it, and the driver ends in PRIMARY
    mode with that address. *)
Lemma full_bus_sweep_condition_example :
  let d := snd (fst (IMU_begin (Sim.platform Sim.bus_sweep_2A) (driver_init _)
                       (Sim.world0 Sim.bus_sweep_2A))) in
  mag_mode d = PRIMARY /\ bmm150_addr d = 0x2A.
Proof.
  destruct (full_bus_sweep_condition (Sim.platform Sim.bus_sweep_2A)
              (Sim.world0 Sim.bus_sweep_2A))
    as (t & d1 & w' & l & r & d' & E & Eb & _ & _ & _ & _ & _ & _ & _ & _ & H).
  cbv zeta. rewrite Eb. simpl.
  replace t with (fst (fst (discover (Sim.platform Sim.bus_sweep_2A)
                              (driver_init _) (Sim.world0 Sim.bus_sweep_2A)))) in H
    by (rewrite E; reflexivity).
  destruct (H 0x2A) as (_ & Hm & Ha); [vm_compute; reflexivity|].
  split; assumption.
Defined.
